(** * denops-std buffer module: a shallow embedding and its verification

    The development follows [buffer/buffer.ts], with the Vim script it
    installs through [ensurePrerequisites], and [helper/load.ts].

    - [Text]          string primitives of the JavaScript runtime
    - [FileFormat]    [buffer/fileformat.ts]: formats, detector, splitter
    - [FileEncoding]  [buffer/fileencoding.ts]: the decoder
    - [Eff]           state passing with exceptions
    - [Host]          the Vim side: buffers, windows, options, builtins
    - [Script]        the Vim functions and autocommands of the script
    - [Buffer]        [buffer/buffer.ts]
    - [Load]          [helper/load.ts]

    Then come the definitions the theorems are stated with ([Views]),
    sample states ([Sample]), and the proofs.  What [buffer.ts] imports
    from [fileformat.ts] and [fileencoding.ts] is modelled from the
    specification, and marked so. *)

From Stdlib Require Import Ascii.
From Stdlib Require Strings.Byte.
From stdpp Require Import base option list strings gmap pretty.

Local Open Scope Z_scope.

(* ================================================================== *)
(** ** JavaScript string primitives *)
(* ================================================================== *)

Module Text.

(** Carriage return and line feed, the two characters delimiters are
    made of. *)
Definition CR : ascii := "013"%char.
Definition LF : ascii := "010"%char.

(** [String.prototype.startsWith]. *)
Fixpoint startsWith (d s : string) : bool :=
  match d, s with
  | EmptyString, _ => true
  | String _ _, EmptyString => false
  | String a d', String b s' => bool_decide (a = b) && startsWith d' s'
  end.

(** [String.prototype.includes]: [d] occurs somewhere in [s]. *)
Fixpoint includes (d s : string) : bool :=
  startsWith d s ||
  match s with
  | EmptyString => false
  | String _ s' => includes d s'
  end.

(** [String.prototype.endsWith]: some suffix of [s] is [d]. *)
Fixpoint endsWith (d s : string) : bool :=
  bool_decide (d = s) ||
  match s with
  | EmptyString => false
  | String _ s' => endsWith d s'
  end.

(** [s.slice(n)]. *)
Fixpoint slice_from (n : nat) (s : string) : string :=
  match n, s with
  | O, _ => s
  | S _, EmptyString => EmptyString
  | S n', String _ s' => slice_from n' s'
  end.

(** Cut [s] at the leftmost occurrence of [d]: what stands before it
    and what stands after it. *)
Fixpoint cut (d s : string) : option (string * string) :=
  if startsWith d s then Some (EmptyString, slice_from (String.length d) s)
  else match s with
       | EmptyString => None
       | String c s' =>
           match cut d s' with
           | Some (b, a) => Some (String c b, a)
           | None => None
           end
       end.

(** [String.prototype.split] with a non-empty string separator: the
    segments between the occurrences of [d], found left to right without
    overlap.  Every cut leaves a strictly shorter rest, so the length of
    the text bounds the number of cuts. *)
Fixpoint split_fuel (fuel : nat) (d s : string) : list string :=
  match cut d s with
  | None => [s]
  | Some (b, a) =>
      match fuel with
      | O => [s]
      | S k => b :: split_fuel k d a
      end
  end.

Definition split (d s : string) : list string :=
  split_fuel (String.length s) d s.

(** [Array.prototype.join]. *)
Fixpoint join (d : string) (l : list string) : string :=
  match l with
  | [] => EmptyString
  | [x] => x
  | x :: rest => x +:+ d +:+ join d rest
  end.

(** [l.slice(0, -1)]. *)
Definition drop_last {A} (l : list A) : list A := take (length l - 1) l.

(** The two as one-character strings. *)
Definition nl : string := String LF EmptyString.
Definition cr : string := String CR EmptyString.

End Text.

(* ================================================================== *)
(** ** File formats ([buffer/fileformat.ts]) *)
(* ================================================================== *)

Module FileFormat.
Import Text.

(** Modelled from the spec: the type [FileFormat] of [fileformat.ts],
    which is not among the sources.  "FileFormat: one of unix | dos | mac,
    each bound to an exact delimiter". *)
Inductive FileFormat := unix | dos | mac.

#[global] Instance FileFormat_eq_dec : EqDecision FileFormat.
Proof. solve_decision. Defined.

Definition delimiter (f : FileFormat) : string :=
  match f with
  | unix => String LF EmptyString
  | dos => String CR (String LF EmptyString)
  | mac => String CR EmptyString
  end.

(** The option value Vim and TypeScript use for a format. *)
Definition name (f : FileFormat) : string :=
  match f with
  | unix => "unix"
  | dos => "dos"
  | mac => "mac"
  end.

(** Modelled from the spec: [isFileFormat] of [fileformat.ts], the type
    guard of [FileFormat]; [parse] returns the format a string names. *)
Definition parse (s : string) : option FileFormat :=
  if bool_decide (s = "unix") then Some unix
  else if bool_decide (s = "dos") then Some dos
  else if bool_decide (s = "mac") then Some mac
  else None.

Definition isFileFormat (s : string) : bool :=
  match parse s with Some _ => true | None => false end.

(** Modelled from the spec: [findFileFormat] of [fileformat.ts]
    (FileFormatDetector).  "Scans text for the first occurrence of any
    candidate's delimiter, testing candidates in the given order ...
    Returns none if no candidate's delimiter occurs anywhere in text." *)
Fixpoint findFileFormat (text : string) (fileformats : list FileFormat)
  : option FileFormat :=
  match fileformats with
  | [] => None
  | f :: rest =>
      if includes (delimiter f) text then Some f
      else findFileFormat text rest
  end.

(** Modelled from the spec: [splitText] of [fileformat.ts]
    (ContentSplitter).  "Splits text on the format's delimiter.  If text
    ends exactly with one delimiter occurrence, the trailing empty segment
    after it is dropped; otherwise the final segment is kept as the last
    line." *)
Definition splitText (text : string) (f : FileFormat) : list string :=
  let segs := split (delimiter f) text in
  if endsWith (delimiter f) text then drop_last segs else segs.

End FileFormat.

(* ================================================================== *)
(** ** File encodings ([buffer/fileencoding.ts]) *)
(* ================================================================== *)

Module FileEncoding.

(** The platform's [TextDecoder], by encoding label.  [supported] tells
    whether [new TextDecoder(label)] constructs (it throws a [RangeError]
    otherwise); [decode_fatal] is decoding under the encoding's own validity
    rule, [None] when the bytes hold an invalid sequence; [decode_lossy] is
    the default decoding, which puts a replacement marker for every invalid
    sequence. *)
Class TextDecoder := {
  supported : string -> bool;
  decode_fatal : string -> list Byte.byte -> option string;
  decode_lossy : string -> list Byte.byte -> string;
}.

Section TryDecode.
Context `{TextDecoder}.

(** The candidates from [enc] on: [enc] first, then [rest] in order. *)
Fixpoint tryDecode_from (data : list Byte.byte) (enc : string) (rest : list string)
  : string * string :=
  match decode_fatal enc data with
  | Some text => (enc, text)
  | None =>
      match rest with
      | [] => (enc, decode_lossy enc data)
      | enc' :: rest' => tryDecode_from data enc' rest'
      end
  end.

(** Modelled from the spec: [tryDecode] of [fileencoding.ts]
    (EncodingDecoder).  "Tries each candidate in order; a candidate succeeds
    if decoding it produces no invalid-sequence markers under that encoding's
    own validity rule.  The first success wins and is returned immediately.
    If every candidate fails validity, the decoder performs a lossy decode
    using the last candidate in the list and reports that encoding."  The
    spec gives no result for an empty candidate list. *)
Definition tryDecode (data : list Byte.byte) (fileencodings : list string)
  : option (string * string) :=
  match fileencodings with
  | [] => None
  | enc :: rest => Some (tryDecode_from data enc rest)
  end.

End TryDecode.

(** A small decoder table for examples: ISO-8859-1, where every byte is
    the character of the same code, and US-ASCII, where a byte of [0x80] or
    more is invalid (and decodes lossily to a question mark). *)
Definition byte_char (b : Byte.byte) : ascii := ascii_of_byte b.

Definition is_ascii_byte (b : Byte.byte) : bool := (Byte.to_N b <? 128)%N.

Definition chars (l : list ascii) : string := String.string_of_list_ascii l.

Definition example_decoder : TextDecoder := {|
  supported label :=
    bool_decide (label = "iso-8859-1") || bool_decide (label = "us-ascii");
  decode_fatal label data :=
    if bool_decide (label = "iso-8859-1") then Some (chars (byte_char <$> data))
    else if bool_decide (label = "us-ascii") then
      if forallb is_ascii_byte data then Some (chars (byte_char <$> data))
      else None
    else None;
  decode_lossy label data :=
    if bool_decide (label = "us-ascii") then
      chars ((fun b => if is_ascii_byte b then byte_char b else "?"%char)
               <$> data)
    else chars (byte_char <$> data)
|}.

End FileEncoding.

(* ================================================================== *)
(** ** Effects: state passing with exceptions *)
(* ================================================================== *)

Module Eff.

Inductive error :=
  | VimError (msg : string)    (* the host reports an error *)
  | RangeError (msg : string)  (* the [TextDecoder] constructor *)
  | Error (msg : string).      (* anything else that is thrown *)

Inductive outcome (A : Type) :=
  | Ok (a : A)
  | Throw (e : error).
Arguments Ok {A} a.
Arguments Throw {A} e.

(** A computation over a state [S]: an outcome and the state it leaves.
    A [Throw] keeps the state changes made before it. *)
Definition Eff (S A : Type) : Type := S -> outcome A * S.

#[export] Instance eff_ret {S} : MRet (Eff S) := fun A a s => (Ok a, s).

#[export] Instance eff_bind {S} : MBind (Eff S) := fun A B f m s =>
  match m s with
  | (Ok a, s') => f a s'
  | (Throw e, s') => (Throw e, s')
  end.

Definition gets {S A} (f : S -> A) : Eff S A := fun s => (Ok (f s), s).

Definition modify {S} (f : S -> S) : Eff S unit := fun s => (Ok tt, f s).

Definition throw {S A} (e : error) : Eff S A := fun s => (Throw e, s).

(** [try { body } finally { fin }]: [fin] runs on every exit of [body];
    when [fin] itself throws, its error replaces the outcome of [body]. *)
Definition try_finally {S A} (body : Eff S A) (fin : Eff S unit) : Eff S A :=
  fun s =>
    let (r, s1) := body s in
    match fin s1 with
    | (Ok _, s2) => (r, s2)
    | (Throw e, s2) => (Throw e, s2)
    end.

(** Run a computation of a component of the state. *)
Definition zoom {S T A} (get : S -> T) (set : T -> S -> S) (m : Eff T A)
  : Eff S A :=
  fun s => let (r, t) := m (get s) in (r, set t s).

End Eff.

(* ================================================================== *)
(** ** The host editor *)
(* ================================================================== *)

(** What the module reads and writes of Vim, with the builtins it calls.
    Vim itself is no part of the repository: the builtins follow Vim's
    documentation ([:help builtin.txt]).  Line numbers are 1-based. *)

Module Host.
Import Eff FileFormat.

Record buffer := Buffer {
  b_lines : list string;       (* [getbufline(buf, 1, '$')] *)
  b_modified : bool;           (* ['modified'] *)
  b_modifiable : bool;         (* ['modifiable'] *)
  b_fileformat : FileFormat;   (* ['fileformat'] *)
  b_fileencoding : string;     (* ['fileencoding'] *)
  b_filetype : string;         (* ['filetype'] *)
  b_lnum : Z;                  (* the cursor line Vim keeps for the buffer *)
}.

Record window := Window {
  w_id : Z;      (* window-ID *)
  w_bufnr : Z;   (* the buffer the window displays *)
}.

(** An entry of [s:denops_std_buffer_concrete_cache_{suffix}]. *)
Record snapshot := Snapshot {
  s_filetype : string;
  s_content : list string;
}.

Inductive au_pattern :=
  | PatBuffer (bufnr : Z)      (* [<buffer=N>] *)
  | PatName (name : string).   (* the name of a [User] event *)

Inductive au_command :=
  | CallConcreteStore (suffix : string)
  | CallConcreteRestore (suffix : string)
  | UnletConcreteCache (suffix : string)
  | ClearAugroup (group : string).

Record autocmd := Autocmd {
  au_group : string;
  au_event : string;
  au_pat : au_pattern;
  au_cmd : au_command;
  au_nested : bool;
  au_once : bool;
}.

Record vim := Vim {
  buffers : gmap Z buffer;
  windows : list window;       (* the windows of the tab page, in order *)
  curwin : Z;                  (* [win_getid()] *)
  fileformats : string;        (* global ['fileformats'] *)
  fileencodings : string;      (* global ['fileencodings'] *)
  functions : gset string;     (* suffixes whose functions are defined *)
  caches : gmap string (gmap Z snapshot);  (* the script variables *)
  autocmds : list autocmd;     (* in definition order *)
}.

#[global] Instance au_pattern_eq_dec : EqDecision au_pattern.
Proof. solve_decision. Defined.

(** *** Field updates *)

Definition set_lines (l : list string) (b : buffer) : buffer :=
  Buffer l (b_modified b) (b_modifiable b) (b_fileformat b)
    (b_fileencoding b) (b_filetype b) (b_lnum b).

Definition set_modified (x : bool) (b : buffer) : buffer :=
  Buffer (b_lines b) x (b_modifiable b) (b_fileformat b)
    (b_fileencoding b) (b_filetype b) (b_lnum b).

Definition set_modifiable (x : bool) (b : buffer) : buffer :=
  Buffer (b_lines b) (b_modified b) x (b_fileformat b)
    (b_fileencoding b) (b_filetype b) (b_lnum b).

Definition set_fileformat (x : FileFormat) (b : buffer) : buffer :=
  Buffer (b_lines b) (b_modified b) (b_modifiable b) x
    (b_fileencoding b) (b_filetype b) (b_lnum b).

Definition set_fileencoding (x : string) (b : buffer) : buffer :=
  Buffer (b_lines b) (b_modified b) (b_modifiable b) (b_fileformat b)
    x (b_filetype b) (b_lnum b).

Definition set_filetype (x : string) (b : buffer) : buffer :=
  Buffer (b_lines b) (b_modified b) (b_modifiable b) (b_fileformat b)
    (b_fileencoding b) x (b_lnum b).

Definition with_buffers (f : gmap Z buffer -> gmap Z buffer) (v : vim) : vim :=
  Vim (f (buffers v)) (windows v) (curwin v) (fileformats v)
    (fileencodings v) (functions v) (caches v) (autocmds v).

Definition with_windows (f : list window -> list window) (v : vim) : vim :=
  Vim (buffers v) (f (windows v)) (curwin v) (fileformats v)
    (fileencodings v) (functions v) (caches v) (autocmds v).

Definition with_curwin (id : Z) (v : vim) : vim :=
  Vim (buffers v) (windows v) id (fileformats v)
    (fileencodings v) (functions v) (caches v) (autocmds v).

Definition with_functions (f : gset string -> gset string) (v : vim) : vim :=
  Vim (buffers v) (windows v) (curwin v) (fileformats v)
    (fileencodings v) (f (functions v)) (caches v) (autocmds v).

Definition with_caches
    (f : gmap string (gmap Z snapshot) -> gmap string (gmap Z snapshot))
    (v : vim) : vim :=
  Vim (buffers v) (windows v) (curwin v) (fileformats v)
    (fileencodings v) (functions v) (f (caches v)) (autocmds v).

Definition with_autocmds (f : list autocmd -> list autocmd) (v : vim) : vim :=
  Vim (buffers v) (windows v) (curwin v) (fileformats v)
    (fileencodings v) (functions v) (caches v) (f (autocmds v)).

(** *** Windows and the current buffer *)

Definition win_getid (v : vim) : Z := curwin v.

Definition find_window (id : Z) (v : vim) : option window :=
  List.find (fun w => bool_decide (w_id w = id)) (windows v).

(** [bufnr()] / [bufnr('%')]: the buffer of the current window. *)
Definition bufnr (v : vim) : Z :=
  match find_window (curwin v) v with
  | Some w => w_bufnr w
  | None => -1
  end.

(** [bufwinid(buf)]: the window-ID of the first window of the tab page
    that displays the buffer, [-1] when there is none. *)
Definition bufwinid (buf : Z) (v : vim) : Z :=
  match List.find (fun w => bool_decide (w_bufnr w = buf)) (windows v) with
  | Some w => w_id w
  | None => -1
  end.

(** [win_gotoid(id)]: go to the window when it exists; the result tells
    whether it did. *)
Definition win_gotoid (id : Z) : Eff vim bool := fun v =>
  match find_window id v with
  | Some _ => (Ok true, with_curwin id v)
  | None => (Ok false, v)
  end.

(** [:keepjumps keepalt {n}buffer]: display buffer [n] in the current
    window; E86 when there is no such buffer. *)
Definition cmd_buffer (n : Z) : Eff vim unit := fun v =>
  match buffers v !! n with
  | Some _ =>
      (Ok tt,
       with_windows
         (map (fun w => if bool_decide (w_id w = curwin v)
                        then Window (w_id w) n else w)) v)
  | None => (Throw (VimError "E86: Buffer does not exist"), v)
  end.

(** *** Options *)

(** [getbufvar(buf, '&modified')] and the like; a buffer that does not
    exist gives the empty string, which is false. *)
Definition getbufvar_modified (buf : Z) (v : vim) : bool :=
  from_option b_modified false (buffers v !! buf).

Definition getbufvar_modifiable (buf : Z) (v : vim) : bool :=
  from_option b_modifiable false (buffers v !! buf).

Definition getbufvar_fileformat (buf : Z) (v : vim) : option FileFormat :=
  b_fileformat <$> buffers v !! buf.

(** [setbufvar(buf, '&modified', x)] and the like; nothing happens for a
    buffer that does not exist. *)
Definition setbufvar_modified (buf : Z) (x : bool) : Eff vim unit :=
  modify (with_buffers (alter (set_modified x) buf)).

Definition setbufvar_modifiable (buf : Z) (x : bool) : Eff vim unit :=
  modify (with_buffers (alter (set_modifiable x) buf)).

(** [setbufvar(buf, '&fileformat', x)]: E474 for a value that names no
    format. *)
Definition setbufvar_fileformat (buf : Z) (x : string) : Eff vim unit :=
  match parse x with
  | Some f => modify (with_buffers (alter (set_fileformat f) buf))
  | None => throw (VimError "E474: Invalid argument")
  end.

Definition setbufvar_fileencoding (buf : Z) (x : string) : Eff vim unit :=
  modify (with_buffers (alter (set_fileencoding x) buf)).

(** [&filetype] of the current buffer, and [let &filetype = x]. *)
Definition get_filetype (v : vim) : string :=
  from_option b_filetype "" (buffers v !! bufnr v).

Definition let_filetype (x : string) : Eff vim unit :=
  modify (fun v => with_buffers (alter (set_filetype x) (bufnr v)) v).

(** *** Text *)

(** [getline(1, '$')] of the current buffer. *)
Definition getline_all (v : vim) : list string :=
  from_option b_lines [] (buffers v !! bufnr v).

(** [line('.')]: the cursor line of the current buffer. *)
Definition line_dot (v : vim) : Z :=
  from_option b_lnum 0 (buffers v !! bufnr v).

Definition E21 : error :=
  VimError "E21: Cannot make changes, 'modifiable' is off".

(** A change of the text of buffer [buf] to [f] of its lines, when [ok]
    accepts the lines: the builtin's result is 0, and 1 when the buffer does
    not exist or [ok] refuses; a change needs ['modifiable'] (E21) and sets
    ['modified']. *)
Definition change_lines (buf : Z) (ok : list string -> bool)
    (f : list string -> list string) : Eff vim Z := fun v =>
  match buffers v !! buf with
  | None => (Ok 1, v)
  | Some b =>
      if negb (ok (b_lines b)) then (Ok 1, v)
      else if negb (b_modifiable b) then (Throw E21, v)
      else (Ok 0,
            with_buffers
              (insert buf (set_modified true (set_lines (f (b_lines b)) b))) v)
  end.

(** [appendbufline(buf, lnum, text)] with a list: the lines go below line
    [lnum]; [lnum] 0 is above the first line. *)
Definition appendbufline (buf lnum : Z) (text : list string) : Eff vim Z :=
  match text with
  | [] => mret 0
  | _ =>
      change_lines buf
        (fun l => bool_decide (0 <= lnum <= Z.of_nat (length l)))
        (fun l => take (Z.to_nat lnum) l ++ text ++ drop (Z.to_nat lnum) l)
  end.

(** [setbufline(buf, lnum, text)] with a list: line [lnum] and the ones
    after it are set to the items; items past the last line are appended. *)
Definition setbufline (buf lnum : Z) (text : list string) : Eff vim Z :=
  match text with
  | [] => mret 0
  | _ =>
      change_lines buf
        (fun l => bool_decide (1 <= lnum <= Z.of_nat (length l) + 1))
        (fun l => take (Z.to_nat (lnum - 1)) l ++ text
                  ++ drop (Z.to_nat (lnum - 1) + length text) l)
  end.

(** [deletebufline(buf, first, '$')]: the lines from [first] on go; a
    buffer never has fewer than one line. *)
Definition deletebufline_to_end (buf first : Z) : Eff vim Z :=
  change_lines buf
    (fun l => bool_decide (1 <= first <= Z.of_nat (length l)))
    (fun l => match take (Z.to_nat (first - 1)) l with
              | [] => [EmptyString]
              | l' => l'
              end).

End Host.

(* ================================================================== *)
(** ** The Vim script of [ensurePrerequisites] *)
(* ================================================================== *)

(** The functions the script defines, one set per [suffix], as
    computations over the host.  [DenopsStdBufferOpen] and
    [DenopsStdBufferReload] run Ex commands ([:edit] and the opener) whose
    effect is the editor's own; they are left out. *)

Module Script.
Import Eff FileFormat Host.

(** A call of a function of the script: E117 unless the script was sourced
    for [suffix]. *)
Definition defined {A} (suffix : string) (body : Eff vim A) : Eff vim A :=
  fun v =>
    if bool_decide (suffix ∈ functions v) then body v
    else (Throw (VimError "E117: Unknown function"), v).

(** [s:denops_std_buffer_concrete_cache_{suffix}]; E121 once it is unlet. *)
Definition concrete_cache (suffix : string) : Eff vim (gmap Z snapshot) :=
  fun v =>
    match caches v !! suffix with
    | Some cache => (Ok cache, v)
    | None => (Throw (VimError "E121: Undefined variable"), v)
    end.

Definition DenopsStdBufferAppend (suffix : string) (bufnr lnum : Z)
    (repl : list string) : Eff vim unit :=
  defined suffix (
    modified ← gets (getbufvar_modified bufnr);
    modifiable ← gets (getbufvar_modifiable bufnr);
    setbufvar_modifiable bufnr true;;
    appendbufline bufnr lnum repl;;
    setbufvar_modified bufnr modified;;
    setbufvar_modifiable bufnr modifiable).

Definition DenopsStdBufferReplace (suffix : string) (bufnr : Z)
    (repl : list string) (fileformat fileencoding : option string)
  : Eff vim unit :=
  defined suffix (
    modified ← gets (getbufvar_modified bufnr);
    modifiable ← gets (getbufvar_modifiable bufnr);
    setbufvar_modifiable bufnr true;;
    match fileformat with
    | Some ff => setbufvar_fileformat bufnr ff
    | None => mret tt
    end;;
    match fileencoding with
    | Some enc => setbufvar_fileencoding bufnr enc
    | None => mret tt
    end;;
    setbufline bufnr 1 repl;;
    deletebufline_to_end bufnr (Z.of_nat (length repl) + 1);;
    setbufvar_modified bufnr modified;;
    setbufvar_modifiable bufnr modifiable).

Definition DenopsStdBufferConcreteRestore (suffix : string) : Eff vim unit :=
  defined suffix (
    cache ← concrete_cache suffix;
    cur ← gets bufnr;
    match cache !! cur with
    | None => mret tt
    | Some c =>
        DenopsStdBufferReplace suffix cur (s_content c) None None;;
        let_filetype (s_filetype c)
    end).

Definition DenopsStdBufferConcreteStore (suffix : string) : Eff vim unit :=
  defined suffix (
    cache ← concrete_cache suffix;
    cur ← gets bufnr;
    filetype ← gets get_filetype;
    content ← gets getline_all;
    modify (with_caches (insert suffix (<[cur := Snapshot filetype content]> cache)))).

(** Augroup names. *)
Definition group_main (suffix : string) : string :=
  "denops_std_buffer_" +:+ suffix.
Definition group_reload (suffix : string) : string :=
  "denops_std_buffer_reload_" +:+ suffix.
Definition group_concrete (suffix : string) : string :=
  "denops_std_buffer_concrete_" +:+ suffix.

(** The four [User DenopsStopped,DenopsClosed ++once] autocommands, one
    entry per event name. *)
Definition teardown (suffix : string) : list autocmd :=
  c ← [UnletConcreteCache suffix; ClearAugroup (group_reload suffix);
       ClearAugroup (group_concrete suffix); ClearAugroup (group_main suffix)];
  n ← ["DenopsStopped"; "DenopsClosed"];
  [Autocmd (group_main suffix) "User" (PatName n) c false true].

(** Sourcing the script: the functions are (re)defined, the cache starts
    empty, and the main augroup is cleared and refilled. *)
Definition source_script (suffix : string) (v : vim) : vim :=
  with_autocmds
    (fun l => filter (fun a => au_group a <> group_main suffix) l
              ++ teardown suffix)
    (with_caches (insert suffix ∅)
       (with_functions (union {[suffix]}) v)).

(** The command of an autocommand. *)
Definition run_command (c : au_command) : Eff vim unit :=
  match c with
  | CallConcreteStore suffix => DenopsStdBufferConcreteStore suffix
  | CallConcreteRestore suffix => DenopsStdBufferConcreteRestore suffix
  | UnletConcreteCache suffix => modify (with_caches (delete suffix))
  | ClearAugroup g =>
      modify (with_autocmds (filter (fun a => au_group a <> g)))
  end.

Definition au_matches (event : string) (pat : au_pattern) (a : autocmd)
  : bool :=
  bool_decide (au_event a = event) && bool_decide (au_pat a = pat).

(** An event fires: the matching autocommands run in definition order, the
    [++once] ones leave the table, and an error of one is reported without
    stopping the others. *)
Definition doautocmd (event : string) (pat : au_pattern) (v : vim) : vim :=
  let matching := List.filter (au_matches event pat) (autocmds v) in
  let v1 :=
    with_autocmds
      (List.filter (fun a => negb (au_matches event pat a && au_once a))) v in
  foldl (fun v a => (run_command (au_cmd a) v).2) v1 matching.

(** A buffer event ([BufWriteCmd], [BufReadCmd]) fires for the current
    buffer. *)
Definition buffer_event (event : string) (v : vim) : vim :=
  doautocmd event (PatBuffer (bufnr v)) v.

End Script.

(* ================================================================== *)
(** ** [buffer/buffer.ts] *)
(* ================================================================== *)

Module Buffer.
Import Eff Text FileFormat FileEncoding Host Script.

(** The values [denops.context] may hold ([Record<string, unknown>]), as
    far as [typeof] tells them apart. *)
Inductive jsvalue :=
  | JUndefined
  | JString (s : string)
  | JNumber (n : Z)
  | JBoolean (b : bool).

(** [ulid()]: universally unique identifiers.  The model draws them from
    an injective sequence; [ulid_seed] below is the position in it. *)
Class Ulid := {
  ulid : nat -> string;
  ulid_inj : forall m n, ulid m = ulid n -> m = n;
}.

(** A Denops session: the host it talks to, its [context] object, and
    the position in the sequence of ULIDs. *)
Record denops := Denops {
  host : vim;
  context : gmap string jsvalue;
  ulid_seed : nat;
}.

Definition set_host (v : vim) (d : denops) : denops :=
  Denops v (context d) (ulid_seed d).

Definition set_context (key : string) (x : jsvalue) (d : denops) : denops :=
  Denops (host d) (<[key := x]> (context d)) (ulid_seed d).

(** [denops.call], [denops.cmd] and the wrappers of [function/] and
    [option/]: a computation of the host, run from the session.  A batch
    ([batch.collect], [batch.batch]) is one such computation. *)
Definition call {A} (f : Eff vim A) : Eff denops A := zoom host set_host f.

Definition draw_ulid `{Ulid} : Eff denops string := fun d =>
  (Ok (ulid (ulid_seed d)), Denops (host d) (context d) (S (ulid_seed d))).

Definition cacheKey : string := "denops_std/buffer/buffer.ts@1".

Definition ensurePrerequisites `{Ulid} : Eff denops string :=
  cached ← gets (fun d => context d !! cacheKey);
  match cached with
  | Some (JString s) => mret s
  | _ =>
      suffix ← draw_ulid;
      modify (set_context cacheKey (JString suffix));;
      call (modify (source_script suffix));;
      mret suffix
  end.

(** [open] and [reload] hand their arguments to [DenopsStdBufferOpen] and
    [DenopsStdBufferReload]; like those two they are left out. *)

(** *** [decode] *)

Record DecodeOptions := {
  opt_fileformat : option string;
  opt_fileencoding : option string;
}.

Record DecodeResult := {
  content : list string;
  fileformat : FileFormat;
  fileencoding : string;
}.

(** [maybe(options.fileformat, isFileFormat)]. *)
Definition maybe_fileformat (options : DecodeOptions) : option FileFormat :=
  opt_fileformat options ≫= parse.

(** [fileformatsStr.split(",") as FileFormat[]]: the cast is unchecked;
    an entry that names no format (the one empty entry of an empty
    ['fileformats']) has no delimiter to look for. *)
Definition as_fileformats (names : list string) : list FileFormat :=
  omap parse names.

(** The two ways to the text: the given encoding, decoded as
    [new TextDecoder(enc).decode(data)] does, or [tryDecode]. *)
Definition decode_text `{TextDecoder} (data : list Byte.byte)
    (options : DecodeOptions) (fileencodings : list string)
  : outcome (string * string) :=
  match opt_fileencoding options with
  | Some (String c enc') =>
      let enc := String c enc' in
      if supported enc then Ok (enc, decode_lossy enc data)
      else Throw (RangeError "The encoding label provided is invalid")
  | _ =>
      match tryDecode data fileencodings with
      | Some r => Ok r
      | None => Throw (Error "no candidate encoding")
      end
  end.

Definition decode `{TextDecoder} (bufnr : Z) (data : list Byte.byte)
    (options : DecodeOptions) : Eff denops DecodeResult :=
  '(fileformat, fileformatsStr, fileencodingsStr) ←
    call (gets (fun v =>
      (getbufvar_fileformat bufnr v, fileformats v, fileencodings v)));
  let fileformats := as_fileformats (split "," fileformatsStr) in
  let fileencodings := split "," fileencodingsStr in
  '(enc, text) ← (fun d => (decode_text data options fileencodings, d));
  let ff :=
    match maybe_fileformat options with
    | Some f => Some f
    | None =>
        match findFileFormat text fileformats with
        | Some f => Some f
        | None => fileformat
        end
    end in
  match ff with
  | Some ff => mret {| content := splitText text ff;
                       fileformat := ff;
                       fileencoding := enc |}
  | None => throw (Error "unsupported fileformat")
  end.

(** *** [ensure] and [modifiable] *)

Definition ensure {T} (bufnr : Z) (executor : Eff denops T) : Eff denops T :=
  '(bufnrCur, winidCur, winidNext) ←
    call (gets (fun v => (Host.bufnr v, win_getid v, bufwinid bufnr v)));
  if bool_decide (winidCur = winidNext) then executor
  else if bool_decide (winidNext = -1) then
    call (cmd_buffer bufnr);;
    try_finally executor (call (cmd_buffer bufnrCur))
  else
    call (win_gotoid winidNext);;
    try_finally executor (call (win_gotoid winidCur);; mret tt).

Definition modifiable {T} (bufnr : Z) (executor : Eff denops T)
  : Eff denops T :=
  '(modified, modifiable) ←
    call (gets (fun v =>
      (getbufvar_modified bufnr v, getbufvar_modifiable bufnr v)));
  call (setbufvar_modifiable bufnr true);;
  try_finally executor
    (call (setbufvar_modified bufnr modified;;
           setbufvar_modifiable bufnr modifiable)).

(** *** [append], [replace], [concrete] *)

Record AppendOptions := { opt_lnum : option Z }.

Definition append `{Ulid} (bufnr : Z) (repl : list string)
    (options : AppendOptions) : Eff denops unit :=
  suffix ← ensurePrerequisites;
  lnum ← match opt_lnum options with
         | Some lnum => mret lnum
         | None => ensure bufnr (call (gets line_dot))
         end;
  call (DenopsStdBufferAppend suffix bufnr lnum repl).

Record ReplaceOptions := {
  ropt_fileformat : option string;
  ropt_fileencoding : option string;
}.

Definition replace `{Ulid} (bufnr : Z) (repl : list string)
    (options : ReplaceOptions) : Eff denops unit :=
  suffix ← ensurePrerequisites;
  call (DenopsStdBufferReplace suffix bufnr repl
          (ropt_fileformat options) (ropt_fileencoding options)).

(** The group helper of [autocmd/mod.ts], as [concrete] uses it: inside
    [augroup {group}], [helper.remove("*", pat)] is [autocmd! * {pat}] and
    [helper.define] is [autocmd]. *)
Definition autocmd_remove_all (group : string) (pat : au_pattern)
  : Eff vim unit :=
  modify (with_autocmds
    (filter (fun a => ~ (au_group a = group /\ au_pat a = pat)))).

Definition autocmd_define (group event : string) (pat : au_pattern)
    (cmd : au_command) (nested : bool) : Eff vim unit :=
  modify (with_autocmds
    (fun l => l ++ [Autocmd group event pat cmd nested false])).

Definition concrete `{Ulid} (bufnr : Z) : Eff denops unit :=
  suffix ← ensurePrerequisites;
  call (
    let group := group_concrete suffix in
    let pat := PatBuffer bufnr in
    autocmd_remove_all group pat;;
    autocmd_define group "BufWriteCmd" pat (CallConcreteStore suffix) false;;
    autocmd_define group "BufReadCmd" pat (CallConcreteRestore suffix) true;;
    DenopsStdBufferConcreteStore suffix).

End Buffer.

(* ================================================================== *)
(** ** [helper/load.ts] *)
(* ================================================================== *)

Module Load.
Import Eff.

(** A [URL] object: [url_object] is the identity of the object (what
    [Set.prototype.has] compares), the other fields are its properties. *)
Record URL := {
  url_object : nat;
  protocol : string;
  href : string;
  pathname : string;
}.

(** [LoadOptions]: [force] may be left undefined. *)
Record LoadOptions := { force : option bool }.

(** [!options.force]. *)
Definition not_forced (options : LoadOptions) : bool :=
  negb (default false (force options)).

(** What the module calls of the platform and of its collaborators, over
    the state [W] of everything outside the module: the host behind the
    session, the file system, the network.  [getOrCreateCacheDir] reads the
    environment and makes the directory; [getLocalFilename] is the SHA-256
    of [href] in hex, a dash and the base name of [pathname]; [fetch] gives
    the status and the body of the response; [source] is the [execute] call
    that makes the host source the script. *)
Class Platform (W : Type) := {
  fromFileUrl : URL -> outcome string;
  getOrCreateCacheDir : Eff W string;
  getLocalFilename : URL -> string;
  join_path : string -> string -> string;
  file_exists : string -> Eff W bool;
  fetch : URL -> Eff W (Z * list Byte.byte);
  writeFile : string -> list Byte.byte -> Eff W unit;
  source : string -> Eff W unit;
}.

(** The process: the outside, and the module's own [loaded] set, in
    insertion order. *)
Record process (W : Type) := Process {
  outside : W;
  loaded : list URL;
}.
Arguments Process {W} _ _.
Arguments outside {W} _.
Arguments loaded {W} _.

Section WithPlatform.
Context {W : Type} `{Platform W}.

Definition set_outside (w : W) (p : process W) : process W :=
  Process w (loaded p).

Definition platform {A} (m : Eff W A) : Eff (process W) A :=
  zoom outside set_outside m.

(** [loaded.has(url)]: an object is in the set when that very object was
    added. *)
Definition has (url : URL) (l : list URL) : bool :=
  existsb (fun u => Nat.eqb (url_object u) (url_object url)) l.

(** [loaded.add(url)]. *)
Definition add (url : URL) (p : process W) : process W :=
  Process (outside p) (if has url (loaded p) then loaded p else loaded p ++ [url]).

Definition ensureLocalFile (url : URL) : Eff W string :=
  if bool_decide (protocol url = "file:") then
    fun w => (fromFileUrl url, w)
  else
    cacheDir ← getOrCreateCacheDir;
    let filename := getLocalFilename url in
    let filepath := join_path cacheDir filename in
    found ← file_exists filepath;
    if found : bool then mret filepath
    else
      '(status, body) ← fetch url;
      if bool_decide (status <> 200) then
        throw (Error "Failed to fetch")
      else
        writeFile filepath body;;
        mret filepath.

Definition load (url : URL) (options : LoadOptions)
  : Eff (process W) bool :=
  l ← gets loaded;
  if not_forced options && has url l then mret false
  else
    scriptPath ← platform (ensureLocalFile url);
    platform (source scriptPath);;
    modify (add url);;
    mret true.

End WithPlatform.

(** A platform for the examples: the outside is the list of the scripts
    the host sourced, latest last; a file URL's path is its [pathname]. *)
Definition sample_platform : Platform (list string) := {|
  fromFileUrl url := Ok (pathname url);
  getOrCreateCacheDir := mret "/cache";
  getLocalFilename url := href url;
  join_path dir file := dir +:+ "/" +:+ file;
  file_exists _ := mret false;
  fetch _ := mret (404, []);
  writeFile _ _ := mret tt;
  source path := modify (fun log => log ++ [path]);
|}.

(** Two [URL] objects for the same address, as two evaluations of
    [new URL("file:///plugin/foo.vim")] give. *)
Definition foo1 : URL :=
  {| url_object := 1; protocol := "file:";
     href := "file:///plugin/foo.vim"; pathname := "/plugin/foo.vim" |}.

Definition foo2 : URL :=
  {| url_object := 2; protocol := "file:";
     href := "file:///plugin/foo.vim"; pathname := "/plugin/foo.vim" |}.

Definition remote : URL :=
  {| url_object := 3; protocol := "https:";
     href := "https://example.com/foo.vim"; pathname := "/foo.vim" |}.

Definition plain : LoadOptions := {| force := None |}.
Definition forced : LoadOptions := {| force := Some true |}.

End Load.

(* ================================================================== *)
(** ** What the theorems speak of *)
(* ================================================================== *)

(** States the functions pass through, and what is observed of them. *)

Module Views.
Import Eff Text FileFormat Host Script Buffer.

(** *** Flags and scoped execution *)

(** The modified and modifiable flags of a buffer, as [getbufvar] reads
    them. *)
Definition flags (bufnr : Z) (d : denops) : bool * bool :=
  (getbufvar_modified bufnr (host d), getbufvar_modifiable bufnr (host d)).

Definition exists_buffer (bufnr : Z) (d : denops) : Prop :=
  is_Some (buffers (host d) !! bufnr).

(** The state in which [modifiable] starts the action. *)
Definition forced (bufnr : Z) (d : denops) : denops :=
  set_host (with_buffers (alter (set_modifiable true) bufnr) (host d)) d.

(** The restoration [modifiable] runs in its [finally]. *)
Definition restored (bufnr : Z) (saved : bool * bool) (d : denops) : denops :=
  set_host
    (with_buffers (alter (set_modifiable saved.2) bufnr)
       (with_buffers (alter (set_modified saved.1) bufnr) (host d))) d.

(** The error of [:{n}buffer] for a buffer that does not exist. *)
Definition E86 : error := VimError "E86: Buffer does not exist".

(** The switches [ensure] makes: to a window, and to a buffer. *)
Definition goto_window (id : Z) (d : denops) : denops :=
  (call (win_gotoid id) d).2.

Definition show_buffer (n : Z) (d : denops) : outcome unit * denops :=
  call (cmd_buffer n) d.

(** *** Text *)

(** The lines [appendbufline] leaves. *)
Definition inserted (lnum : Z) (repl l : list string) : list string :=
  take (Z.to_nat lnum) l ++ repl ++ drop (Z.to_nat lnum) l.

(** *** The session registry *)

(** The identifier a session has memoized, if any: what
    [typeof denops.context[cacheKey] === "string"] lets through. *)
Definition memoized (d : denops) : option string :=
  match context d !! cacheKey with
  | Some (JString s) => Some s
  | _ => None
  end.

(** The identifier of the session: the memoized one, or the one the
    first call will draw. *)
Definition session_suffix `{Ulid} (d : denops) : string :=
  default (ulid (ulid_seed d)) (memoized d).

(** A memoized identifier is one whose script was sourced. *)
Definition session_ready (d : denops) : Prop :=
  forall s, memoized d = Some s ->
    s ∈ functions (host d) /\ is_Some (caches (host d) !! s).

(** The state a first call leaves. *)
Definition registered `{Ulid} (d : denops) : denops :=
  let suffix := ulid (ulid_seed d) in
  {| host := source_script suffix (host d);
     context := <[cacheKey := JString suffix]> (context d);
     ulid_seed := S (ulid_seed d) |}.

(** *** The snapshot cache *)

(** The two hooks [concrete] defines for a buffer. *)
Definition write_hook (suffix : string) (bufnr : Z) : autocmd :=
  Autocmd (group_concrete suffix) "BufWriteCmd" (PatBuffer bufnr)
    (CallConcreteStore suffix) false false.

Definition read_hook (suffix : string) (bufnr : Z) : autocmd :=
  Autocmd (group_concrete suffix) "BufReadCmd" (PatBuffer bufnr)
    (CallConcreteRestore suffix) true false.

(** The snapshot of the current buffer. *)
Definition current_snapshot (v : vim) : snapshot :=
  Snapshot (get_filetype v) (getline_all v).

(** The state [DenopsStdBufferConcreteStore] leaves. *)
Definition stored (suffix : string) (cache : gmap Z snapshot) (v : vim) : vim :=
  with_caches (insert suffix (<[bufnr v := current_snapshot v]> cache)) v.

(** The state [DenopsStdBufferReplace] leaves, without format and encoding:
    the buffer has the new lines and is otherwise as before. *)
Definition replaced (buf : Z) (repl : list string) (b : buffer) (v : vim)
  : vim :=
  with_buffers (insert buf (set_lines repl b)) v.

(** The autocommand table [concrete] leaves. *)
Definition hooked (suffix : string) (bufnr : Z) (l : list autocmd)
  : list autocmd :=
  filter (fun a => ~ (au_group a = group_concrete suffix /\
                      au_pat a = PatBuffer bufnr)) l
  ++ [write_hook suffix bufnr; read_hook suffix bufnr].

(** The editor keeps the functions, the script variables and the
    autocommands. *)
Definition same_registry (v v' : vim) : Prop :=
  functions v' = functions v /\ caches v' = caches v /\
  autocmds v' = autocmds v.

End Views.

(* ================================================================== *)
(** ** Sample states *)
(* ================================================================== *)

Module Sample.
Import Eff Text FileFormat FileEncoding Host Script Buffer Views.

(** Buffer 1 is displayed twice, in windows 1000 and 1001; buffer 2 in
    window 1002; buffer 3 in no window.  Window 1001 is the current one. *)
Definition vim0 : vim := {|
  buffers :=
    {[ 1 := Buffer ["a"; "b"] false false unix "utf-8" "text" 2;
       2 := Buffer ["x"] true true dos "latin1" "vim" 1;
       3 := Buffer ["p"; "q"; "r"] false true unix "utf-8" "" 3 ]};
  windows := [Window 1000 1; Window 1001 1; Window 1002 2];
  curwin := 1001;
  fileformats := "unix,dos";
  fileencodings := "us-ascii,iso-8859-1";
  functions := ∅;
  caches := ∅;
  autocmds := [];
|}.

Definition d0 : denops := {| host := vim0; context := ∅; ulid_seed := 0 |}.

(** The same with window 1000 current. *)
Definition d1 : denops :=
  {| host := with_curwin 1000 vim0; context := ∅; ulid_seed := 0 |}.

(** A sequence of identifiers: the decimal numerals. *)
Definition sample_ulid : Ulid := {|
  ulid := pretty;
  ulid_inj := fun m n => inj pretty m n;
|}.

(** An action that reports the window it runs in. *)
Definition report_window : Eff denops Z := call (gets win_getid).

(** An action that marks the buffer modified, switches its modifiable flag
    off, and fails. *)
Definition dirty_and_fail (bufnr : Z) : Eff denops unit :=
  call (setbufvar_modified bufnr true);;
  call (setbufvar_modifiable bufnr false);;
  throw (Error "the action fails").

#[local] Existing Instance sample_ulid.

(** The bytes of "a", CR, LF, "b". *)
Definition sample_bytes : list Byte.byte :=
  [Byte.x61; Byte.x0d; Byte.x0a; Byte.x62].

Definition no_options : DecodeOptions :=
  {| opt_fileformat := None; opt_fileencoding := None |}.

Definition mac_options : DecodeOptions :=
  {| opt_fileformat := Some "mac"; opt_fileencoding := None |}.

Definition foo_options : DecodeOptions :=
  {| opt_fileformat := Some "foo"; opt_fileencoding := None |}.

(** Buffer 1 after [concrete 1], edited: new lines and a new file type. *)
Definition edited : buffer :=
  Buffer ["new"; "text"] true true unix "utf-8" "markdown" 1.

Definition after_edit : vim :=
  with_buffers (insert 1 edited) (host (concrete 1 d0).2).

(** The write hook has fired; then the content is discarded. *)
Definition emptied : buffer :=
  Buffer [EmptyString] false true unix "utf-8" "" 1.

Definition after_discard : vim :=
  with_buffers (insert 1 emptied) (buffer_event "BufWriteCmd" after_edit).

End Sample.

(* ================================================================== *)
(** ** More of what the theorems speak of *)
(* ================================================================== *)

Module MoreViews.
Import Eff Text FileFormat Host Script Buffer Views.

(** A state whose buffer [buf] is [b]. *)
Definition at_buffer (buf : Z) (b : buffer) (v : vim) : vim :=
  with_buffers (insert buf b) v.

(** *** Frames and invariants *)

(** A computation keeps a property of the state, however it ends. *)
Definition invariant {S A} (P : S -> Prop) (m : Eff S A) : Prop :=
  forall s, P s -> P (m s).2.

(** A computation leaves a view of the state as it is, however it ends. *)
Definition leaves {S T A} (view : S -> T) (m : Eff S A) : Prop :=
  forall s, view (m s).2 = view s.

(** Views of the host: what the script defined, where the user is, and
    the buffers other than [buf]. *)
Definition registry (v : vim)
  : gset string * gmap string (gmap Z snapshot) * list autocmd :=
  (functions v, caches v, autocmds v).

Definition focus (v : vim) : list window * Z := (windows v, curwin v).

Definition other_buffers (buf : Z) (v : vim) : gmap Z buffer :=
  delete buf (buffers v).

(** A view that does not look at buffer [buf]. *)
Class Ignores {T} (buf : Z) (view : vim -> T) : Prop :=
  ignores : forall f v, view (with_buffers (alter f buf) v) = view v.

(** The script was sourced for [s], and its cache is there. *)
Definition sourced (s : string) (v : vim) : Prop :=
  s ∈ functions v /\ is_Some (caches v !! s).

(** *** [ensure] *)


(** *** [replace] *)

(** The buffer after [setbufvar(buf, '&fileformat', ff)], when [ff] is
    given and names a format. *)
Definition with_format (ff : option string) (b : buffer) : buffer :=
  match ff ≫= parse with
  | Some f => set_fileformat f b
  | None => b
  end.

Definition with_encoding (fenc : option string) (b : buffer) : buffer :=
  match fenc with
  | Some enc => set_fileencoding enc b
  | None => b
  end.

(** A format argument [DenopsStdBufferReplace] accepts: none, or the name
    of a format. *)
Definition format_accepted (ff : option string) : Prop :=
  forall x, ff = Some x -> isFileFormat x = true.

(** The lines a buffer holds after it was given [repl]: a buffer is never
    left without a line. *)
Definition lines_given (repl : list string) : list string :=
  match repl with
  | [] => [EmptyString]
  | _ => repl
  end.

(** The state [DenopsStdBufferReplace] leaves when it succeeds. *)
Definition replaced_with (buf : Z) (repl : list string)
    (ff fenc : option string) (b : buffer) (v : vim) : vim :=
  with_buffers
    (insert buf (set_lines (lines_given repl)
                   (with_encoding fenc (with_format ff b)))) v.

(** The lines [setbufline(buf, lnum, text)] leaves. *)
Definition overwritten (lnum : Z) (text l : list string) : list string :=
  take (Z.to_nat (lnum - 1)) l ++ text
  ++ drop (Z.to_nat (lnum - 1) + length text) l.

Definition E474 : error := VimError "E474: Invalid argument".

End MoreViews.

(* ================================================================== *)
(** ** [helper/load.ts]: the cache of downloaded scripts *)
(* ================================================================== *)

(** The functions of [helper/load.ts] that [Load.Platform] leaves
    abstract, over what they ask of Deno and of the standard library. *)

Module Cache.
Import Eff Load.

(** *** [getLocalFilename] *)

(** The pure functions of the platform: [crypto.subtle.digest("sha-256")],
    whose digests have 32 bytes; [TextEncoder.encode]; [basename],
    [join] and [fromFileUrl] of [@std/path]. *)
Class Std := {
  sha256 : list Byte.byte -> list Byte.byte;
  sha256_length : forall data, length (sha256 data) = 32%nat;
  encode : string -> list Byte.byte;
  basename : string -> string;
  join : list string -> string;
  std_fromFileUrl : URL -> outcome string;
}.

(** The digit of a value below 16, as [Number.prototype.toString(16)]
    writes it. *)
Definition digit (n : N) : ascii :=
  match n with
  | 0 => "0" | 1 => "1" | 2 => "2" | 3 => "3" | 4 => "4" | 5 => "5"
  | 6 => "6" | 7 => "7" | 8 => "8" | 9 => "9" | 10 => "a" | 11 => "b"
  | 12 => "c" | 13 => "d" | 14 => "e" | _ => "f"
  end%N%char.

(** [b.toString(16)] for an element of a [Uint8Array]: one digit below 16,
    two from there on. *)
Definition toString16 (b : Byte.byte) : string :=
  let n := Byte.to_N b in
  if (n <? 16)%N then String (digit n) EmptyString
  else String (digit (n / 16)) (String (digit (n mod 16)) EmptyString).

(** [s.padStart(n, c)] for a one-character [c]. *)
Definition padStart (n : nat) (c : ascii) (s : string) : string :=
  String.string_of_list_ascii (replicate (n - String.length s) c) +:+ s.

(** [bytes.map((b) => b.toString(16).padStart(2, "0")).join("")]. *)
Definition hex (bytes : list Byte.byte) : string :=
  Text.join EmptyString (map (fun b => padStart 2 "0" (toString16 b)) bytes).

Definition getLocalFilename `{Std} (url : URL) : string :=
  let buf := sha256 (encode (href url)) in
  let h := hex buf in
  h +:+ "-" +:+ basename (pathname url).

(** The byte two digits stand for; the inverse of the map of [hex]. *)
Definition digit_value (c : ascii) : option N :=
  List.find (fun n => bool_decide (digit n = c))
    [0; 1; 2; 3; 4; 5; 6; 7; 8; 9; 10; 11; 12; 13; 14; 15]%N.

Definition byte_of_digits (hi lo : ascii) : option Byte.byte :=
  h ← digit_value hi; l ← digit_value lo; Byte.of_N (16 * h + l).

(** *** The world outside: environment, file system, network, host *)

Record world := World {
  env : gmap string string;                (* [Deno.env] *)
  on_windows : bool;                       (* [Deno.build.os === "windows"] *)
  dirs : gset string;                      (* the directories *)
  files : gmap string (list Byte.byte);    (* the files *)
  web : gmap string (Z * list Byte.byte);  (* status and body, by [href] *)
  fetched : list string;                   (* the [href]s fetched, in order *)
  scripts : list string;                   (* the paths the host sourced *)
}.

Definition with_dirs (f : gset string -> gset string) (w : world) : world :=
  World (env w) (on_windows w) (f (dirs w)) (files w) (web w) (fetched w)
    (scripts w).

Definition with_files
    (f : gmap string (list Byte.byte) -> gmap string (list Byte.byte))
    (w : world) : world :=
  World (env w) (on_windows w) (dirs w) (f (files w)) (web w) (fetched w)
    (scripts w).

Definition with_fetched (f : list string -> list string) (w : world) : world :=
  World (env w) (on_windows w) (dirs w) (files w) (web w) (f (fetched w))
    (scripts w).

Definition with_scripts (f : list string -> list string) (w : world) : world :=
  World (env w) (on_windows w) (dirs w) (files w) (web w) (fetched w)
    (f (scripts w)).

(** [Deno.mkdir(dir, { recursive: true })]: no error when it is there. *)
Definition mkdir (dir : string) : Eff world unit :=
  modify (with_dirs (union {[dir]})).

(** [exists(path)] of [@std/fs]: a file or a directory. *)
Definition exists_path (path : string) : Eff world bool :=
  gets (fun w => bool_decide (is_Some (files w !! path) \/ path ∈ dirs w)).

(** [fetch(url)]: the request is made; no answer is a [TypeError]. *)
Definition world_fetch (url : URL) : Eff world (Z * list Byte.byte) :=
  modify (with_fetched (fun l => l ++ [href url]));;
  answer ← gets (fun w => web w !! href url);
  match answer with
  | Some r => mret r
  | None => throw (Error "error sending request")
  end.

Definition world_writeFile (path : string) (body : list Byte.byte)
  : Eff world unit :=
  modify (with_files (insert path body)).

Definition world_source (path : string) : Eff world unit :=
  modify (with_scripts (fun l => l ++ [path])).

(** *** [getCacheDirUnix], [getCacheDirWindows], [getOrCreateCacheDir] *)

Section WithStd.
Context `{Std}.

(** [!root]: undefined, or the empty string. *)
Definition getCacheDirUnix (w : world) : outcome string :=
  match env w !! "HOME" with
  | Some (String c root) =>
      Ok (join [String c root; ".cache"; "denops_std"; "load"])
  | _ => Throw (Error "`HOME` environment variable is not defined.")
  end.

Definition getCacheDirWindows (w : world) : outcome string :=
  match env w !! "LOCALAPPDATA" with
  | Some (String c root) => Ok (join [String c root; "denops_std"; "load"])
  | _ => Throw (Error "`LOCALAPPDATA` environment variable is not defined.")
  end.

(** [Deno.build.os === "windows" ? getCacheDirWindows() :
    getCacheDirUnix()]. *)
Definition cache_dir (w : world) : outcome string :=
  if on_windows w then getCacheDirWindows w else getCacheDirUnix w.

Definition getOrCreateCacheDir : Eff world string :=
  cacheDir ← (fun w => (cache_dir w, w));
  mkdir cacheDir;;
  mret cacheDir.

(** The platform of [Load], with these functions in the place of the
    abstract ones. *)
#[export] Instance deno : Platform world := {|
  Load.fromFileUrl := std_fromFileUrl;
  Load.getOrCreateCacheDir := getOrCreateCacheDir;
  Load.getLocalFilename := getLocalFilename;
  Load.join_path dir file := join [dir; file];
  Load.file_exists := exists_path;
  Load.fetch := world_fetch;
  Load.writeFile := world_writeFile;
  Load.source := world_source;
|}.

(** The path of the cached copy of a URL. *)
Definition cached_path (dir : string) (url : URL) : string :=
  join [dir; getLocalFilename url].

End WithStd.

(** A standard library for the examples: the digest repeats one byte, the
    length of the data modulo 256, 32 times; paths are joined with
    slashes; the base name is the path itself. *)
Definition sample_std : Std := {|
  sha256 data :=
    replicate 32 (default Byte.x00 (Byte.of_nat (length data mod 256)));
  sha256_length data := length_replicate _ _;
  encode s := map byte_of_ascii (String.list_ascii_of_string s);
  basename path := path;
  join parts := Text.join "/" parts;
  std_fromFileUrl url := Ok (pathname url);
|}.

(** A world where [https://example.com/foo.vim] is served, and one where
    it is not found. *)
Definition served : world := {|
  env := {[ "HOME" := "/home/me" ]};
  on_windows := false;
  dirs := ∅;
  files := ∅;
  web := {[ "https://example.com/foo.vim" := (200, [Byte.x22]) ]};
  fetched := [];
  scripts := [];
|}.


Definition homeless : world := {|
  env := {[ "HOME" := EmptyString ]};
  on_windows := false;
  dirs := ∅;
  files := ∅;
  web := {[ "https://example.com/foo.vim" := (200, [Byte.x22]) ]};
  fetched := [];
  scripts := [];
|}.

End Cache.

(* ================================================================== *)
(** ** Facts about the string primitives *)
(* ================================================================== *)

Module TextFacts.
Import Text.

(** stdpp keeps [String.append] folded under [simpl]; these are its two
    defining equations. *)
Lemma app_cons x (a b : string) : String x a +:+ b = String x (a +:+ b).
Proof. reflexivity. Qed.

Lemma app_empty_l (a : string) : EmptyString +:+ a = a.
Proof. reflexivity. Qed.

Ltac str_simpl := simpl; rewrite ?app_cons, ?app_empty_l.

Lemma app_assoc_str (a b c : string) : (a +:+ b) +:+ c = a +:+ b +:+ c.
Proof. induction a as [|x a IH]; str_simpl; [done | by rewrite IH]. Qed.

Lemma app_empty_r (a : string) : a +:+ EmptyString = a.
Proof. induction a as [|x a IH]; str_simpl; [done | by rewrite IH]. Qed.

Lemma length_app_str (a b : string) :
  String.length (a +:+ b) = (String.length a + String.length b)%nat.
Proof. induction a as [|x a IH]; str_simpl; [done | by rewrite IH]. Qed.

Lemma startsWith_spec d s :
  startsWith d s = true <-> exists r, s = d +:+ r.
Proof.
  revert s. induction d as [|a d IH]; intros s; str_simpl.
  - split; [intros _; by exists s | done].
  - destruct s as [|b s].
    + split; [done | intros [r Hr]; rewrite app_cons in Hr; discriminate].
    + rewrite andb_true_iff, bool_decide_eq_true, IH. split.
      * intros [-> [r ->]]. by exists r.
      * intros [r Hr]. rewrite app_cons in Hr. injection Hr as -> ->. eauto.
Qed.

Lemma startsWith_app d r : startsWith d (d +:+ r) = true.
Proof. apply startsWith_spec. by exists r. Qed.

Lemma slice_from_app d r : slice_from (String.length d) (d +:+ r) = r.
Proof. induction d as [|a d IH]; str_simpl; [by destruct r | done]. Qed.

Lemma includes_spec d s :
  includes d s = true <-> exists l r, s = l +:+ d +:+ r.
Proof.
  induction s as [|c s IH]; simpl.
  - rewrite orb_false_r, startsWith_spec. split.
    + intros [r Hr]. by exists EmptyString, r.
    + intros [[|x l] [r Hr]]; [by exists r | rewrite app_cons in Hr; discriminate].
  - rewrite orb_true_iff, startsWith_spec, IH. split.
    + intros [[r Hr] | (l & r & ->)].
      * by exists EmptyString, r.
      * by exists (String c l), r.
    + intros [[|x l] [r Hr]].
      * left. by exists r.
      * right. rewrite app_cons in Hr. injection Hr as -> ->. by exists l, r.
Qed.

Lemma endsWith_spec d s : endsWith d s = true <-> exists t, s = t +:+ d.
Proof.
  induction s as [|c s IH]; simpl.
  - rewrite orb_false_r, bool_decide_eq_true. split.
    + intros ->. by exists EmptyString.
    + intros [[|x t] Ht]; rewrite ?app_cons, ?app_empty_l in Ht;
        [done | discriminate].
  - rewrite orb_true_iff, bool_decide_eq_true, IH. split.
    + intros [-> | [t ->]]; [by exists EmptyString | by exists (String c t)].
    + intros [[|x t] Ht]; rewrite ?app_cons, ?app_empty_l in Ht.
      * by left.
      * right. injection Ht as -> ->. by exists t.
Qed.

Lemma endsWith_includes d s : endsWith d s = true -> includes d s = true.
Proof.
  rewrite endsWith_spec, includes_spec. intros [t ->].
  exists t, EmptyString. by rewrite app_empty_r.
Qed.

(** [cut] finds an occurrence, and the leftmost one. *)
Lemma cut_Some d s b a : cut d s = Some (b, a) -> s = b +:+ d +:+ a.
Proof.
  revert b. induction s as [|c s IH]; intros b; simpl.
  - destruct (startsWith d EmptyString) eqn:E; [|done].
    intros [= <- <-]. by destruct d.
  - destruct (startsWith d (String c s)) eqn:E.
    + intros [= <- <-]. apply startsWith_spec in E as [r Hr].
      rewrite Hr. by rewrite slice_from_app.
    + destruct (cut d s) as [[b' a']|] eqn:Ec; [|done].
      intros [= <- <-]. rewrite app_cons. f_equal. by apply IH.
Qed.

Lemma cut_None d s : cut d s = None <-> includes d s = false.
Proof.
  induction s as [|c s IH]; simpl.
  - destruct (startsWith d EmptyString); simpl; split; done.
  - destruct (startsWith d (String c s)); simpl; [split; done|].
    rewrite <- IH. destruct (cut d s) as [[b a]|]; split; done.
Qed.

Lemma cut_before_clean d s b a :
  d <> EmptyString -> cut d s = Some (b, a) -> includes d b = false.
Proof.
  intros Hd. revert b. induction s as [|c s IH]; intros b; simpl.
  - destruct (startsWith d EmptyString) eqn:E; [|done].
    destruct d; [done | discriminate].
  - destruct (startsWith d (String c s)) eqn:E.
    + intros [= <- <-]. simpl. destruct d; [done | by rewrite orb_false_r].
    + destruct (cut d s) as [[b' a']|] eqn:Ec; [|done].
      intros [= <- <-]. simpl. rewrite (IH b' eq_refl), orb_false_r.
      apply not_true_is_false. intros [r Hr]%startsWith_spec.
      apply cut_Some in Ec. subst s.
      assert (startsWith d (String c (b' +:+ d +:+ a')) = true) as E';
        [|congruence].
      apply startsWith_spec. exists (r +:+ d +:+ a').
      rewrite <- app_cons, Hr. by rewrite app_assoc_str.
Qed.

Lemma cut_rest_shorter d s b a :
  d <> EmptyString -> cut d s = Some (b, a) ->
  (String.length a < String.length s)%nat.
Proof.
  intros Hd ->%cut_Some. rewrite !length_app_str.
  destruct d; [done | simpl; lia].
Qed.

End TextFacts.

(* ================================================================== *)
(** ** Splitting: the segments rebuild the text and hold no delimiter *)
(* ================================================================== *)

Module SplitFacts.
Import Text TextFacts.

Section WithDelimiter.
Variable d : string.
Hypothesis d_nonempty : d <> EmptyString.

Lemma cut_empty : cut d EmptyString = None.
Proof using d_nonempty. simpl. by destruct d. Qed.

Lemma split_fuel_eq fuel s :
  split_fuel fuel d s =
  match cut d s with
  | None => [s]
  | Some (b, a) =>
      match fuel with O => [s] | S k => b :: split_fuel k d a end
  end.
Proof. by destruct fuel. Qed.

Lemma split_fuel_nonempty fuel s : split_fuel fuel d s <> [].
Proof. destruct fuel; simpl; destruct (cut d s) as [[b a]|]; done. Qed.

Lemma join_cons x l : l <> [] -> join d (x :: l) = x +:+ d +:+ join d l.
Proof. by destruct l. Qed.

Lemma split_fuel_join fuel :
  forall s, (String.length s <= fuel)%nat -> join d (split_fuel fuel d s) = s.
Proof using d_nonempty.
  induction fuel as [|k IH]; intros s Hlen; simpl;
    destruct (cut d s) as [[b a]|] eqn:E; try done.
  rewrite join_cons by apply split_fuel_nonempty.
  pose proof (cut_rest_shorter _ _ _ _ d_nonempty E).
  rewrite IH by lia. symmetry. by apply cut_Some.
Qed.

Lemma split_fuel_clean fuel :
  forall s, (String.length s <= fuel)%nat ->
    Forall (fun l => includes d l = false) (split_fuel fuel d s).
Proof using d_nonempty.
  induction fuel as [|k IH]; intros s Hlen; simpl;
    destruct (cut d s) as [[b a]|] eqn:E.
  - destruct s; [|simpl in Hlen; lia]. by rewrite cut_empty in E.
  - constructor; [by apply cut_None | constructor].
  - pose proof (cut_rest_shorter _ _ _ _ d_nonempty E).
    constructor; [by eapply cut_before_clean | apply IH; lia].
  - constructor; [by apply cut_None | constructor].
Qed.

Lemma endsWith_skip b r :
  endsWith d (b +:+ d +:+ r) = true -> endsWith d (d +:+ r) = true.
Proof.
  induction b as [|c b IH]; [done|]. rewrite app_cons. simpl.
  intros [Heq%bool_decide_eq_true | H]%orb_true_iff; [|by apply IH].
  apply (f_equal String.length) in Heq. simpl in Heq.
  rewrite !length_app_str in Heq. lia.
Qed.

(** When an occurrence of [d] is never followed by a proper overlap of
    itself, a text that ends with [d] has an empty last segment. *)
Hypothesis d_no_overlap :
  forall r, endsWith d (d +:+ r) = true ->
    r = EmptyString \/ endsWith d r = true.

Lemma split_fuel_last_empty fuel :
  forall s, (String.length s <= fuel)%nat -> endsWith d s = true ->
    last (split_fuel fuel d s) = Some EmptyString.
Proof using d_nonempty d_no_overlap.
  induction fuel as [|k IH]; intros s Hlen Hend.
  - destruct s; [|simpl in Hlen; lia].
    simpl in Hend. rewrite orb_false_r in Hend.
    by apply bool_decide_eq_true in Hend.
  - simpl. destruct (cut d s) as [[b a]|] eqn:E.
    + pose proof (cut_rest_shorter _ _ _ _ d_nonempty E).
      pose proof (cut_Some _ _ _ _ E) as ->.
      rewrite last_cons.
      destruct (d_no_overlap a (endsWith_skip _ _ Hend)) as [-> | Ha].
      * by rewrite split_fuel_eq, cut_empty.
      * by rewrite IH by (done || lia).
    + apply endsWith_includes in Hend. apply cut_None in E. congruence.
Qed.

End WithDelimiter.

Lemma Forall_drop_last {A} (P : A -> Prop) (l : list A) :
  Forall P l -> Forall P (drop_last l).
Proof. apply Forall_take. Qed.

Lemma drop_last_snoc {A} (l : list A) x : drop_last (l ++ [x]) = l.
Proof.
  unfold drop_last. rewrite length_app. simpl.
  replace (length l + 1 - 1)%nat with (length l) by lia.
  by rewrite take_app_length.
Qed.

Lemma join_snoc_empty d l :
  l <> [] -> join d (l ++ [EmptyString]) = join d l +:+ d.
Proof.
  induction l as [|x l IH]; [done|]. intros _.
  destruct l as [|y l].
  - simpl. by rewrite app_empty_r.
  - change ((x :: y :: l) ++ [EmptyString])
      with (x :: ((y :: l) ++ [EmptyString])).
    rewrite join_cons by (by destruct l).
    rewrite IH by done.
    rewrite (join_cons d x (y :: l)) by done.
    by rewrite !app_assoc_str.
Qed.

End SplitFacts.

(* ================================================================== *)
(** ** FileFormatDetector and ContentSplitter *)
(* ================================================================== *)

Module FileFormatSpec.
Import Text TextFacts SplitFacts FileFormat.

Lemma delimiter_nonempty f : delimiter f <> EmptyString.
Proof. by destruct f. Qed.

Lemma delimiter_inj f g : delimiter f = delimiter g -> f = g.
Proof. by destruct f, g. Qed.

Lemma parse_name f : parse (name f) = Some f.
Proof. by destruct f. Qed.

Lemma parse_Some s f : parse s = Some f -> s = name f.
Proof.
  unfold parse. repeat case_bool_decide; intros [= <-]; by subst.
Qed.

Lemma isFileFormat_spec s : isFileFormat s = true <-> exists f, s = name f.
Proof.
  unfold isFileFormat. split.
  - destruct (parse s) as [f|] eqn:E; [|done]. intros _. exists f.
    by apply parse_Some.
  - intros [f ->]. by rewrite parse_name.
Qed.

(** No delimiter overlaps a copy of itself. *)
Lemma delimiter_no_overlap f r :
  endsWith (delimiter f) (delimiter f +:+ r) = true ->
  r = EmptyString \/ endsWith (delimiter f) r = true.
Proof.
  destruct f; unfold delimiter; rewrite ?app_cons, ?app_empty_l; simpl;
    repeat (intros [H%bool_decide_eq_true | H]%orb_true_iff;
            [first [discriminate | injection H as <-; by left] | revert H]);
    by right.
Qed.

Lemma findFileFormat_Some text fs f :
  findFileFormat text fs = Some f <->
  exists l1 l2, fs = l1 ++ f :: l2 /\
    includes (delimiter f) text = true /\
    Forall (fun g => includes (delimiter g) text = false) l1.
Proof.
  induction fs as [|g fs IH]; simpl.
  - split; [done | intros ([|??] & ? & ? & _); done].
  - destruct (includes (delimiter g) text) eqn:E.
    + split.
      * intros [= <-]. by exists [], fs.
      * intros ([|g' l1] & l2 & Heq & Hf & Hl1); simplify_eq/=; [done|].
        apply Forall_cons in Hl1 as [? _]. congruence.
    + rewrite IH. split.
      * intros (l1 & l2 & -> & Hf & Hl1). exists (g :: l1), l2.
        split_and!; [done | done | by constructor].
      * intros ([|g' l1] & l2 & Heq & Hf & Hl1); simplify_eq/=;
          [congruence|].
        apply Forall_cons in Hl1 as [_ Hl1]. by exists l1, l2.
Qed.

Lemma findFileFormat_None text fs :
  findFileFormat text fs = None <->
  Forall (fun g => includes (delimiter g) text = false) fs.
Proof.
  induction fs as [|g fs IH]; simpl.
  - split; [constructor | done].
  - rewrite Forall_cons. destruct (includes (delimiter g) text).
    + split; [done | intros [? _]; done].
    + rewrite IH. tauto.
Qed.

(** C6 (FileFormatDetector).  [findFileFormat] returns the first candidate,
    in the given order, whose delimiter occurs in the text; with the order
    dos, unix, mac a text that holds a CR LF sequence is detected as dos
    (and so never as unix); and the answer is none exactly when no
    candidate's delimiter occurs anywhere in the text. *)
Theorem findFileFormat_first_candidate (text : string) (fs : list FileFormat) :
  (forall f,
     findFileFormat text fs = Some f <->
     exists l1 l2, fs = l1 ++ f :: l2 /\
       includes (delimiter f) text = true /\
       Forall (fun g => includes (delimiter g) text = false) l1) /\
  (forall l r,
     findFileFormat (l +:+ String CR (String LF r)) [dos; unix; mac]
     = Some dos) /\
  (findFileFormat text fs = None <->
   forall g, g ∈ fs -> includes (delimiter g) text = false).
Proof.
  split_and!.
  - intros f. apply findFileFormat_Some.
  - intros l r. cbn [findFileFormat].
    assert (includes (delimiter dos) (l +:+ String CR (String LF r)) = true)
      as ->; [|done].
    apply includes_spec. by exists l, r.
  - rewrite findFileFormat_None. apply Forall_forall.
Qed.

(** The order matters: with unix first, the same CR LF text is taken for
    unix. *)
Example findFileFormat_unix_first :
  findFileFormat ("a" +:+ String CR (String LF "b")) [unix; dos; mac]
  = Some unix.
Proof. reflexivity. Qed.

Lemma split_join f text : join (delimiter f) (split (delimiter f) text) = text.
Proof. apply split_fuel_join; [apply delimiter_nonempty | done]. Qed.

Lemma split_clean f text :
  Forall (fun l => includes (delimiter f) l = false) (split (delimiter f) text).
Proof. apply split_fuel_clean; [apply delimiter_nonempty | done]. Qed.

Lemma split_last_empty f text :
  endsWith (delimiter f) text = true ->
  last (split (delimiter f) text) = Some EmptyString.
Proof.
  apply split_fuel_last_empty;
    [apply delimiter_nonempty | apply delimiter_no_overlap | done].
Qed.

(** C7 (ContentSplitter).  The segments of [split], joined by the
    delimiter, are the text; no line of [splitText] holds the delimiter
    (for unix and mac the one delimiter character, for dos the CR LF pair);
    when the text ends with the delimiter the last segment is empty and
    [splitText] drops exactly that one, so that the lines joined and
    terminated by the delimiter are the text; otherwise [splitText] keeps
    every segment, the unterminated last one included, and the lines joined
    are the text.  The two examples of the spec converge. *)
Theorem splitText_lines (text : string) (f : FileFormat) :
  join (delimiter f) (split (delimiter f) text) = text /\
  Forall (fun l => includes (delimiter f) l = false) (splitText text f) /\
  (endsWith (delimiter f) text = true ->
     last (split (delimiter f) text) = Some EmptyString /\
     splitText text f = drop_last (split (delimiter f) text) /\
     join (delimiter f) (splitText text f) +:+ delimiter f = text) /\
  (endsWith (delimiter f) text = false ->
     splitText text f = split (delimiter f) text /\
     join (delimiter f) (splitText text f) = text) /\
  splitText ("a" +:+ nl +:+ "b" +:+ nl) unix = ["a"; "b"] /\
  splitText ("a" +:+ nl +:+ "b") unix = ["a"; "b"].
Proof.
  pose proof (split_join f text) as Hjoin.
  pose proof (split_clean f text) as Hclean.
  unfold splitText. split_and!; try done.
  - destruct (endsWith _ _); [by apply Forall_drop_last | done].
  - intros Hend. rewrite Hend.
    pose proof (split_last_empty f text Hend) as Hlast.
    split_and!; try done.
    apply last_Some in Hlast as [l' Hl']. rewrite Hl' in Hjoin |- *.
    rewrite drop_last_snoc.
    destruct l' as [|x l'].
    + simpl in Hjoin. subst text.
      apply endsWith_spec in Hend as [t Ht].
      apply (f_equal String.length) in Ht.
      rewrite length_app_str in Ht.
      pose proof (delimiter_nonempty f).
      destruct (delimiter f); [done | simpl in Ht; lia].
    + by rewrite join_snoc_empty in Hjoin.
  - intros Hend. by rewrite Hend.
Qed.

(** Two delimiters at the end: one empty line stays. *)
Example splitText_blank_last_line :
  splitText ("a" +:+ nl +:+ nl) unix = ["a"; ""].
Proof. reflexivity. Qed.

(** The dos delimiter is the pair: a lone line feed is part of its line. *)
Example splitText_dos :
  splitText ("a" +:+ nl +:+ "b" +:+ cr +:+ nl +:+ "c" +:+ cr +:+ nl) dos
  = ["a" +:+ nl +:+ "b"; "c"].
Proof. reflexivity. Qed.

End FileFormatSpec.

Module FileEncodingSpec.
Import FileEncoding.

Section WithDecoder.
Context `{TextDecoder}.

Lemma tryDecode_from_spec data enc rest :
  let r := tryDecode_from data enc rest in
  (exists l1 l2, enc :: rest = l1 ++ r.1 :: l2 /\
     Forall (fun e => decode_fatal e data = None) l1 /\
     decode_fatal r.1 data = Some r.2) \/
  (Forall (fun e => decode_fatal e data = None) (enc :: rest) /\
   last (enc :: rest) = Some r.1 /\
   r.2 = decode_lossy r.1 data).
Proof.
  revert enc. induction rest as [|enc' rest IH]; intros enc; simpl.
  - destruct (decode_fatal enc data) as [text|] eqn:E; simpl.
    + left. by exists [], [].
    + right. split_and!; [by repeat constructor | done | done].
  - destruct (decode_fatal enc data) as [text|] eqn:E; simpl.
    + left. by exists [], (enc' :: rest).
    + destruct (IH enc') as [(l1 & l2 & Heq & Hl1 & Hok) | (Hall & Hlast & Hlossy)].
      * left. exists (enc :: l1), l2. simpl in *.
        split_and!; [by rewrite Heq | by constructor | done].
      * right. split_and!; [by constructor | done | done].
Qed.

(** C5 (EncodingDecoder).  For a non-empty candidate list [tryDecode]
    always returns a pair; either its encoding is the first candidate, in
    order, whose strict decoding succeeds, and the text is that decoding;
    or every candidate fails, the encoding is the last candidate, and the
    text is its lossy decoding. *)
Theorem tryDecode_total (data : list Byte.byte) (fileencodings : list string) :
  fileencodings <> [] ->
  exists enc text,
    tryDecode data fileencodings = Some (enc, text) /\
    ((exists l1 l2, fileencodings = l1 ++ enc :: l2 /\
        Forall (fun e => decode_fatal e data = None) l1 /\
        decode_fatal enc data = Some text) \/
     (Forall (fun e => decode_fatal e data = None) fileencodings /\
      last fileencodings = Some enc /\
      text = decode_lossy enc data)).
Proof.
  destruct fileencodings as [|enc rest]; [done|]. intros _.
  exists (tryDecode_from data enc rest).1, (tryDecode_from data enc rest).2.
  split; [simpl; by destruct (tryDecode_from data enc rest)|].
  apply tryDecode_from_spec.
Qed.

End WithDecoder.

#[local] Existing Instance example_decoder.

(** [tryDecode_total] at the bytes of "h" and of e acute in ISO-8859-1,
    with US-ASCII tried first. *)
Lemma tryDecode_total_witness :
  ["us-ascii"; "iso-8859-1"] <> [] /\
  exists enc text,
    tryDecode [Byte.x68; Byte.xe9] ["us-ascii"; "iso-8859-1"]
      = Some (enc, text) /\
    ((exists l1 l2, ["us-ascii"; "iso-8859-1"] = l1 ++ enc :: l2 /\
        Forall (fun e => decode_fatal e [Byte.x68; Byte.xe9] = None) l1 /\
        decode_fatal enc [Byte.x68; Byte.xe9] = Some text) \/
     (Forall (fun e => decode_fatal e [Byte.x68; Byte.xe9] = None)
        ["us-ascii"; "iso-8859-1"] /\
      last ["us-ascii"; "iso-8859-1"] = Some enc /\
      text = decode_lossy enc [Byte.x68; Byte.xe9])).
Proof.
  split; [discriminate|].
  apply (tryDecode_total [Byte.x68; Byte.xe9] ["us-ascii"; "iso-8859-1"]).
  discriminate.
Defined.

Example tryDecode_first_valid :
  tryDecode [Byte.x68; Byte.x69] ["us-ascii"; "iso-8859-1"]
  = Some ("us-ascii", "hi").
Proof. reflexivity. Qed.

Example tryDecode_second_valid :
  fst <$> tryDecode [Byte.x68; Byte.xe9] ["us-ascii"; "iso-8859-1"]
  = Some "iso-8859-1".
Proof. reflexivity. Qed.

Example tryDecode_all_invalid :
  tryDecode [Byte.x68; Byte.xe9] ["us-ascii"; "us-ascii"]
  = Some ("us-ascii", "h?").
Proof. reflexivity. Qed.

End FileEncodingSpec.

(* ================================================================== *)
(** ** Scoped execution: [modifiable] and [ensure] *)
(* ================================================================== *)

Module ContextSwitcher.
Import Eff Text FileFormat Host Script Buffer.
Import Views.

Ltac eff :=
  unfold mbind, eff_bind, mret, eff_ret, gets, modify, throw, call, zoom,
    try_finally in *;
  simpl in *.

Lemma modifiable_eq {T} bufnr (executor : Eff denops T) d :
  modifiable bufnr executor d =
  ((executor (forced bufnr d)).1,
   restored bufnr (flags bufnr d) (executor (forced bufnr d)).2).
Proof.
  unfold modifiable, forced, restored, flags. eff.
  by destruct (executor _) as [r d1].
Qed.

Lemma flags_restored bufnr saved d :
  exists_buffer bufnr (restored bufnr saved d) ->
  flags bufnr (restored bufnr saved d) = saved.
Proof.
  unfold exists_buffer, restored, flags, getbufvar_modified,
    getbufvar_modifiable. simpl.
  rewrite !lookup_alter_eq.
  destruct (buffers (host d) !! bufnr) as [b|]; simpl.
  - by destruct saved.
  - by intros [? ?].
Qed.

Lemma flags_forced bufnr d :
  exists_buffer bufnr d ->
  flags bufnr (forced bufnr d) = ((flags bufnr d).1, true).
Proof.
  unfold exists_buffer, forced, flags, getbufvar_modified,
    getbufvar_modifiable. simpl.
  rewrite !lookup_alter_eq. by intros [b ->].
Qed.

(** C2 (withModifiable).  [modifiable] runs the action in the state where
    the buffer's modifiable flag is forced on (the modified flag untouched)
    and hands on the action's outcome, a throw as well; in the state it
    leaves, whatever that outcome, the buffer (when it still exists) has the
    modified and modifiable flags it had at entry.  The same holds for the
    outer call of two nested ones: the inner call restores the flags to what
    it captured (modifiable on), and the outer one to the values before
    both. *)
Theorem modifiable_restores_flags {T} (bufnr : Z) (executor : Eff denops T)
    (d : denops) :
  let exit := modifiable bufnr executor d in
  let inner := modifiable bufnr executor (forced bufnr d) in
  let outer := modifiable bufnr (modifiable bufnr executor) d in
  exit = ((executor (forced bufnr d)).1,
          restored bufnr (flags bufnr d) (executor (forced bufnr d)).2) /\
  (exists_buffer bufnr d ->
     flags bufnr (forced bufnr d) = ((flags bufnr d).1, true)) /\
  (exists_buffer bufnr exit.2 -> flags bufnr exit.2 = flags bufnr d) /\
  outer.1 = inner.1 /\
  (exists_buffer bufnr inner.2 ->
     flags bufnr inner.2 = flags bufnr (forced bufnr d)) /\
  (exists_buffer bufnr outer.2 -> flags bufnr outer.2 = flags bufnr d).
Proof.
  simpl. rewrite !(modifiable_eq bufnr _ d). simpl.
  rewrite !(modifiable_eq bufnr _ (forced bufnr d)). simpl.
  split_and!; try done.
  - apply flags_forced.
  - apply flags_restored.
  - apply flags_restored.
  - apply flags_restored.
Qed.

End ContextSwitcher.

Module EnsureSpec.
Import Eff Text FileFormat Host Script Buffer ContextSwitcher.
Import Views.

Lemma find_window_Some id v w :
  find_window id v = Some w -> w_id w = id /\ w ∈ windows v.
Proof.
  unfold find_window. intros [Hin Hid]%List.find_some.
  split; [by apply bool_decide_eq_true in Hid | by apply list_elem_of_In].
Qed.

Lemma find_window_is_Some id v :
  is_Some (find_window id v) <-> exists w, w ∈ windows v /\ w_id w = id.
Proof.
  split.
  - intros [w [? ?]%find_window_Some]. eauto.
  - intros (w & Hin & Hid). unfold find_window.
    destruct (List.find _ _) as [w'|] eqn:E; [done|].
    apply list_elem_of_In in Hin.
    pose proof (List.find_none _ _ E w Hin) as Hf. simpl in Hf.
    by apply bool_decide_eq_false in Hf.
Qed.

(** A window [bufwinid] names exists. *)
Lemma bufwinid_window bufnr v :
  bufwinid bufnr v <> -1 -> is_Some (find_window (bufwinid bufnr v) v).
Proof.
  unfold bufwinid. intros Hne.
  destruct (List.find _ (windows v)) as [w|] eqn:E; [|done].
  apply List.find_some in E as [Hin _].
  apply find_window_is_Some. exists w. by rewrite list_elem_of_In.
Qed.

Lemma win_gotoid_existing id v :
  is_Some (find_window id v) -> win_gotoid id v = (Ok true, with_curwin id v).
Proof. unfold win_gotoid. by intros [w ->]. Qed.

Lemma goto_window_existing id d :
  is_Some (find_window id (host d)) -> win_getid (host (goto_window id d)) = id.
Proof.
  intros H. unfold goto_window. eff. by rewrite win_gotoid_existing.
Qed.

(** After [:{n}buffer] the current window displays buffer [n]. *)
Lemma bufnr_after_buffer n v :
  is_Some (buffers v !! n) -> is_Some (find_window (curwin v) v) ->
  bufnr (cmd_buffer n v).2 = n.
Proof.
  intros [b Hb] Hw. unfold cmd_buffer. rewrite Hb. simpl.
  unfold bufnr, find_window in *. simpl.
  induction (windows v) as [|w ws IH]; simpl in *; [by destruct Hw|].
  case_bool_decide as Hid; simpl.
  - by rewrite bool_decide_true.
  - rewrite (bool_decide_false _ Hid). by apply IH.
Qed.

Lemma NoDup_fmap_elem {A B} (f : A -> B) (l : list A) x y :
  NoDup (f <$> l) -> x ∈ l -> y ∈ l -> f x = f y -> x = y.
Proof.
  induction l as [|a l IH]; simpl; [by intros _ ?%elem_of_nil|].
  intros [Ha Hnd]%NoDup_cons Hx Hy Hf.
  apply elem_of_cons in Hx as [->|Hx]; apply elem_of_cons in Hy as [->|Hy];
    try done; [| |by apply IH]; exfalso; apply Ha; apply list_elem_of_fmap.
  - by exists y.
  - by exists x.
Qed.

(** When [bufwinid] names the current window, that window displays the
    buffer: the buffer is the active one. *)
Lemma bufwinid_current_active buf v :
  NoDup (w_id <$> windows v) ->
  bufwinid buf v <> -1 -> win_getid v = bufwinid buf v -> bufnr v = buf.
Proof.
  unfold bufwinid, bufnr, find_window, win_getid. intros Hnd Hne ->.
  destruct (List.find (fun w => bool_decide (w_bufnr w = buf)) (windows v))
    as [w0|] eqn:E0; [|done].
  apply List.find_some in E0 as [Hin0 Hb0%bool_decide_eq_true].
  destruct (List.find _ (windows v)) as [w1|] eqn:E1.
  - apply List.find_some in E1 as [Hin1 Hid1%bool_decide_eq_true].
    rewrite <- list_elem_of_In in Hin0, Hin1.
    by rewrite (NoDup_fmap_elem w_id _ w1 w0 Hnd Hin1 Hin0 Hid1).
  - pose proof (List.find_none _ _ E1 w0 Hin0) as Hf. simpl in Hf.
    by apply bool_decide_eq_false in Hf.
Qed.

Lemma ensure_in_place {T} bufnr (executor : Eff denops T) d :
  win_getid (host d) = bufwinid bufnr (host d) ->
  ensure bufnr executor d = executor d.
Proof.
  intros Heq. unfold ensure. eff. rewrite bool_decide_true by done.
  by destruct d.
Qed.

Lemma ensure_other_window {T} bufnr (executor : Eff denops T) d :
  win_getid (host d) <> bufwinid bufnr (host d) ->
  bufwinid bufnr (host d) <> -1 ->
  let out := executor (goto_window (bufwinid bufnr (host d)) d) in
  ensure bufnr executor d = (out.1, goto_window (win_getid (host d)) out.2).
Proof.
  intros Hne Hwin. unfold ensure, goto_window. destruct d as [v ctx seed]. eff.
  rewrite (bool_decide_false _ Hne), (bool_decide_false _ Hwin).
  unfold set_host. simpl.
  rewrite !(win_gotoid_existing _ _ (bufwinid_window _ _ Hwin)). simpl.
  destruct (executor _) as [r d1]. simpl.
  unfold win_gotoid. by destruct (find_window _ (host d1)).
Qed.

Lemma ensure_no_window {T} bufnr (executor : Eff denops T) d :
  win_getid (host d) <> bufwinid bufnr (host d) ->
  bufwinid bufnr (host d) = -1 ->
  ensure bufnr executor d =
  match show_buffer bufnr d with
  | (Throw e, d1) => (Throw e, d1)
  | (Ok _, d1) =>
      let out := executor d1 in
      match show_buffer (Host.bufnr (host d)) out.2 with
      | (Throw e, d2) => (Throw e, d2)
      | (Ok _, d2) => (out.1, d2)
      end
  end.
Proof.
  intros Hne Hwin. unfold ensure, show_buffer. destruct d as [v ctx seed]. eff.
  rewrite (bool_decide_false _ Hne), (bool_decide_true _ Hwin).
  unfold set_host. simpl.
  destruct (cmd_buffer bufnr v) as [[[]|e] v1]; [|done].
  by destruct (executor _) as [r d1].
Qed.

Lemma show_buffer_existing n d :
  is_Some (buffers (host d) !! n) ->
  exists d1, show_buffer n d = (Ok tt, d1) /\
    (is_Some (find_window (curwin (host d)) (host d)) ->
     bufnr (host d1) = n).
Proof.
  intros Hb. pose proof (bufnr_after_buffer n (host d) Hb) as Hcur.
  unfold show_buffer. eff. unfold cmd_buffer in *.
  destruct Hb as [b Hb]. rewrite Hb in *. simpl in *. eauto.
Qed.

Lemma show_buffer_missing n d :
  buffers (host d) !! n = None -> show_buffer n d = (Throw E86, d).
Proof.
  intros Hb. unfold show_buffer. eff. unfold cmd_buffer. rewrite Hb.
  by destruct d.
Qed.

End EnsureSpec.

Module EnsureTheorems.
Import Eff Text FileFormat Host Script Buffer ContextSwitcher EnsureSpec Sample.
Import Views.

(** C3 as stated fails: buffer 1 is the active buffer (window 1001 displays
    it), yet [ensure] does not run the action in place: the action runs in
    window 1000, the first window that displays buffer 1. *)
Lemma ensure_active_buffer_not_in_place :
  Host.bufnr (host d0) = 1 /\
  report_window d0 = (Ok 1001, d0) /\
  ensure 1 report_window d0 = (Ok 1000, d0).
Proof. by vm_compute. Qed.

(** C3, amended (ensure).  With [cur] the active window and [next] what
    [bufwinid] answers for the buffer:
    - when [cur = next], [ensure] is the action, run in place (and the
      buffer is the active one, window ids being distinct);
    - when [next] is another window, [ensure] enters it, runs the action,
      and on every exit goes to [cur]; the outcome is the action's, and
      [cur] is the active window again whenever it still exists;
    - when no window displays the buffer, [ensure] fails with E86 and
      changes nothing if the buffer does not exist; otherwise it displays
      the buffer in the active window, runs the action, and on every exit
      displays the original buffer again: the outcome is the action's and
      the original buffer is the active one, whenever that buffer and the
      active window still exist. *)
Theorem ensure_scoped {T} (bufnr : Z) (executor : Eff denops T) (d : denops) :
  let cur := win_getid (host d) in
  let next := bufwinid bufnr (host d) in
  let exit := ensure bufnr executor d in
  (cur = next ->
     exit = executor d /\
     (NoDup (w_id <$> windows (host d)) -> next <> -1 ->
      Host.bufnr (host d) = bufnr)) /\
  (cur <> next -> next <> -1 ->
     let entered := goto_window next d in
     let out := executor entered in
     win_getid (host entered) = next /\
     exit = (out.1, goto_window cur out.2) /\
     (is_Some (find_window cur (host out.2)) ->
      win_getid (host exit.2) = cur)) /\
  (cur <> next -> next = -1 ->
     (buffers (host d) !! bufnr = None -> exit = (Throw E86, d)) /\
     (is_Some (buffers (host d) !! bufnr) ->
        exists entered,
          show_buffer bufnr d = (Ok tt, entered) /\
          (is_Some (find_window cur (host d)) ->
           Host.bufnr (host entered) = bufnr) /\
          let out := executor entered in
          exit.2 = (show_buffer (Host.bufnr (host d)) out.2).2 /\
          (is_Some (buffers (host out.2) !! Host.bufnr (host d)) ->
             exit.1 = out.1 /\
             (is_Some (find_window (curwin (host out.2)) (host out.2)) ->
              Host.bufnr (host exit.2) = Host.bufnr (host d))))).
Proof.
  simpl. split_and!.
  - intros Heq. split; [by apply ensure_in_place|].
    intros Hnd Hwin. by apply bufwinid_current_active.
  - intros Hne Hwin.
    rewrite (ensure_other_window bufnr executor d Hne Hwin). simpl.
    split_and!; [|done|].
    + apply goto_window_existing. by apply bufwinid_window.
    + apply goto_window_existing.
  - intros Hne Hwin. rewrite (ensure_no_window bufnr executor d Hne Hwin).
    split.
    + intros Hb. by rewrite show_buffer_missing.
    + intros Hb.
      destruct (show_buffer_existing bufnr d Hb) as (entered & Hshow & Hcur).
      exists entered. rewrite Hshow. simpl. split_and!; [done | done | |].
      * by destruct (show_buffer (Host.bufnr (host d)) (executor entered).2)
          as [[?|?] ?].
      * intros Hb'.
        destruct (show_buffer_existing _ _ Hb') as (d2 & Hback & Hcur').
        rewrite Hback. simpl. by split.
Qed.

(** With window 1000 active, buffer 1 is reached in place. *)
Example ensure_first_window :
  ensure 1 report_window d1 = (Ok 1000, d1).
Proof. by vm_compute. Qed.

(** The switch back also runs when the action fails: buffer 2 is displayed
    in window 1002; the action fails there, and window 1001 is the active
    one afterwards. *)
Example ensure_failing_action :
  let exit := ensure 2 (dirty_and_fail 2) d0 in
  exit.1 = Throw (Error "the action fails") /\ win_getid (host exit.2) = 1001.
Proof. by vm_compute. Qed.

(** Buffer 3 is displayed nowhere: the action sees it as the current
    buffer, and buffer 1 is current again afterwards. *)
Example ensure_hidden_buffer :
  let exit := ensure 3 (call (gets Host.bufnr)) d0 in
  exit.1 = Ok 3 /\ Host.bufnr (host exit.2) = 1.
Proof. by vm_compute. Qed.

(** [modifiable] around a failing action. *)
Example modifiable_failing_action :
  let exit := modifiable 1 (dirty_and_fail 1) d0 in
  exit.1 = Throw (Error "the action fails") /\
  flags 1 exit.2 = (false, false) /\
  flags 1 (forced 1 d0) = (false, true).
Proof. by vm_compute. Qed.

(** Two nested calls around a failing action: the flags of buffer 1 are
    off afterwards, as they were before. *)
Example modifiable_nested :
  let exit := modifiable 1 (modifiable 1 (dirty_and_fail 1)) d0 in
  exit.1 = Throw (Error "the action fails") /\
  flags 1 d0 = (false, false) /\
  flags 1 exit.2 = (false, false).
Proof. by vm_compute. Qed.

End EnsureTheorems.

(* ================================================================== *)
(** ** [append] *)
(* ================================================================== *)

Module AppendSpec.
Import Eff Text FileFormat Host Script Buffer ContextSwitcher EnsureSpec.
Import Views.

Ltac vim_unfold :=
  unfold defined, concrete_cache, appendbufline, setbufline,
    deletebufline_to_end, change_lines, setbufvar_modified,
    setbufvar_modifiable, setbufvar_fileformat, setbufvar_fileencoding,
    let_filetype, getbufvar_modified, getbufvar_modifiable in *.

(** [appendbufline] alone marks the buffer modified. *)
Example appendbufline_sets_modified :
  let v := (appendbufline 3 1 ["x"] Sample.vim0).2 in
  getbufvar_modified 3 Sample.vim0 = false /\
  getbufvar_modified 3 v = true /\
  b_lines <$> buffers v !! 3 = Some ["p"; "x"; "q"; "r"].
Proof. by vm_compute. Qed.

(** The function of the script: whatever it does to the text, the two
    flags are the ones it found; it fails only when it is not defined. *)
Lemma DenopsStdBufferAppend_spec suffix bufnr lnum repl v :
  let exit := DenopsStdBufferAppend suffix bufnr lnum repl v in
  getbufvar_modified bufnr exit.2 = getbufvar_modified bufnr v /\
  getbufvar_modifiable bufnr exit.2 = getbufvar_modifiable bufnr v /\
  windows exit.2 = windows v /\ curwin exit.2 = curwin v /\
  (suffix ∈ functions v ->
   exit.1 = Ok tt /\
   forall b, buffers v !! bufnr = Some b -> repl <> [] ->
     0 <= lnum <= Z.of_nat (length (b_lines b)) ->
     buffers exit.2 !! bufnr = Some (set_lines (inserted lnum repl (b_lines b)) b)).
Proof.
  unfold DenopsStdBufferAppend, defined. simpl.
  case_bool_decide as Hdef; simpl; [|by split_and!].
  vim_unfold. destruct repl as [|x repl]; eff; rewrite !lookup_alter_eq;
    destruct (buffers v !! bufnr) as [b|] eqn:Hb; simpl; try done.
  - case_bool_decide as Hrange; simpl.
    + rewrite !lookup_alter_eq, lookup_insert_eq. simpl.
      split_and!; try done. intros _. split; [done|].
      intros b' [= <-] _ _. by destruct b.
    + rewrite !lookup_alter_eq, Hb. simpl.
      split_and!; try done. intros _. split; [done|].
      intros b' [= <-] _ Hr. lia.
  - rewrite !lookup_alter_eq, Hb. simpl. split_and!; try done.
Qed.

End AppendSpec.

(* ================================================================== *)
(** ** The session registry: [ensurePrerequisites] *)
(* ================================================================== *)

Module RegistrySpec.
Import Eff Text FileFormat Host Script Buffer ContextSwitcher.
Import Views.

Section WithUlid.
Context `{Ulid}.

Lemma ensurePrerequisites_memoized d s :
  memoized d = Some s -> ensurePrerequisites d = (Ok s, d).
Proof.
  unfold memoized, ensurePrerequisites. eff.
  destruct (context d !! cacheKey) as [[]|]; intros ?; by simplify_eq.
Qed.

Lemma ensurePrerequisites_first d :
  memoized d = None ->
  ensurePrerequisites d = (Ok (ulid (ulid_seed d)), registered d).
Proof.
  unfold memoized, ensurePrerequisites, registered, draw_ulid, set_context,
    set_host. eff.
  destruct (context d !! cacheKey) as [[]|]; intros ?; by simplify_eq.
Qed.

Lemma memoized_registered d : memoized (registered d) = Some (ulid (ulid_seed d)).
Proof. unfold memoized, registered. simpl. by rewrite lookup_insert_eq. Qed.

Lemma registered_defined d :
  ulid (ulid_seed d) ∈ functions (host (registered d)) /\
  caches (host (registered d)) !! ulid (ulid_seed d) = Some ∅.
Proof.
  unfold registered. simpl. split; [set_solver | apply lookup_insert_eq].
Qed.

(** What every call gives: an identifier, memoized from then on, and a
    host whose buffers and windows are untouched. *)
Lemma ensurePrerequisites_spec d :
  exists s,
    (ensurePrerequisites d).1 = Ok s /\
    memoized (ensurePrerequisites d).2 = Some s /\
    buffers (host (ensurePrerequisites d).2) = buffers (host d) /\
    windows (host (ensurePrerequisites d).2) = windows (host d) /\
    curwin (host (ensurePrerequisites d).2) = curwin (host d) /\
    (session_ready d ->
     s ∈ functions (host (ensurePrerequisites d).2) /\
     is_Some (caches (host (ensurePrerequisites d).2) !! s)).
Proof.
  destruct (memoized d) as [s|] eqn:E.
  - exists s. rewrite (ensurePrerequisites_memoized d s E). simpl.
    split_and!; try done. intros Hr. by apply Hr.
  - exists (ulid (ulid_seed d)). rewrite (ensurePrerequisites_first d E).
    simpl. split_and!; try done.
    + apply memoized_registered.
    + intros _. destruct (registered_defined d) as [? Hc]. split; [done|].
      by exists ∅.
Qed.

End WithUlid.
End RegistrySpec.

Module AppendTheorems.
Import Eff Text FileFormat Host Script Buffer ContextSwitcher EnsureSpec.
Import AppendSpec RegistrySpec.
Import Views.

(** Reading the cursor line under [ensure] leaves every buffer alone. *)
Lemma ensure_line_buffers bufnr d :
  buffers (host (ensure bufnr (call (gets line_dot)) d).2) = buffers (host d).
Proof.
  destruct d as [v ctx seed].
  unfold ensure, win_gotoid, cmd_buffer. eff. unfold set_host. simpl.
  repeat case_bool_decide; simpl; try done.
  - destruct (buffers v !! bufnr); simpl; [|done].
    by destruct (buffers v !! Host.bufnr v).
  - repeat match goal with
           | |- context [find_window ?a ?b] =>
               destruct (find_window a b); simpl
           end; done.
Qed.

Section WithUlid.
Context `{Ulid}.

(** C8 (append).  After [append], on every exit, the buffer's modified and
    modifiable flags are the ones it had immediately before the call;
    and with a ready session, an existing buffer and a line number in
    range the call succeeds and the lines are inserted below that line:
    the insertion itself, which marks a buffer modified, happened. *)
Theorem append_restores_flags (bufnr : Z) (repl : list string)
    (options : AppendOptions) (d : denops) :
  let exit := append bufnr repl options d in
  flags bufnr exit.2 = flags bufnr d /\
  (forall lnum b,
     session_ready d -> opt_lnum options = Some lnum ->
     buffers (host d) !! bufnr = Some b -> repl <> [] ->
     0 <= lnum <= Z.of_nat (length (b_lines b)) ->
     exit.1 = Ok tt /\
     buffers (host exit.2) !! bufnr
     = Some (set_lines (inserted lnum repl (b_lines b)) b)).
Proof.
  destruct (ensurePrerequisites_spec d) as (s & Hr & _ & Hbufs & _ & _ & Hdef).
  destruct (ensurePrerequisites d) as [r1 d1] eqn:E1. simpl in *. subst r1.
  assert (append bufnr repl options d =
          match opt_lnum options with
          | Some lnum => call (DenopsStdBufferAppend s bufnr lnum repl) d1
          | None =>
              match ensure bufnr (call (gets line_dot)) d1 with
              | (Ok lnum, d2) =>
                  call (DenopsStdBufferAppend s bufnr lnum repl) d2
              | (Throw e, d2) => (Throw e, d2)
              end
          end) as ->.
  { unfold append, mbind, eff_bind. rewrite E1.
    by destruct (opt_lnum options). }
  assert (forall lnum d2, buffers (host d2) = buffers (host d) ->
            flags bufnr (call (DenopsStdBufferAppend s bufnr lnum repl) d2).2
            = flags bufnr d) as Hflags.
  { intros lnum d2 Hd2. unfold call, zoom.
    pose proof (DenopsStdBufferAppend_spec s bufnr lnum repl (host d2))
      as (Hm & Hmo & _).
    destruct (DenopsStdBufferAppend s bufnr lnum repl (host d2)) as [r v'].
    simpl in *. unfold flags. simpl. rewrite Hm, Hmo.
    unfold getbufvar_modified, getbufvar_modifiable. by rewrite Hd2. }
  destruct (opt_lnum options) as [lnum|] eqn:El.
  - split; [by apply Hflags|].
    intros lnum' b Hready [= <-] Hb Hne Hrange. unfold call, zoom.
    pose proof (DenopsStdBufferAppend_spec s bufnr lnum repl (host d1))
      as (_ & _ & _ & _ & Hok).
    destruct (DenopsStdBufferAppend s bufnr lnum repl (host d1)) as [r v'].
    simpl in *. destruct (Hdef Hready) as [Hf _].
    destruct (Hok Hf) as [-> Hlines].
    split; [done|]. apply Hlines; [by rewrite Hbufs | done | done].
  - split; [|intros; discriminate].
    pose proof (ensure_line_buffers bufnr d1) as Hb2.
    destruct (ensure bufnr (call (gets line_dot)) d1) as [[lnum|e] d2];
      simpl in *.
    + apply Hflags. by rewrite Hb2.
    + unfold flags, getbufvar_modified, getbufvar_modifiable.
      by rewrite Hb2, Hbufs.
Qed.

End WithUlid.

#[local] Existing Instance Sample.sample_ulid.

(** Buffer 1 is neither modified nor modifiable: the line goes in, and the
    flags stay. *)
Example append_below_first_line :
  let exit := append 1 ["x"] {| opt_lnum := Some 1 |} Sample.d0 in
  exit.1 = Ok tt /\
  buffers (host exit.2) !! 1
  = Some (Buffer ["a"; "x"; "b"] false false unix "utf-8" "text" 2).
Proof. by vm_compute. Qed.

(** Without a line number the cursor line of the buffer is taken, here 2,
    and the active window is the one it was. *)
Example append_below_cursor :
  let exit := append 1 ["x"] {| opt_lnum := None |} Sample.d0 in
  exit.1 = Ok tt /\
  b_lines <$> buffers (host exit.2) !! 1 = Some ["a"; "b"; "x"] /\
  flags 1 exit.2 = (false, false) /\
  win_getid (host exit.2) = 1001.
Proof. by vm_compute. Qed.

End AppendTheorems.

Module RegistryTheorems.
Import Eff Text FileFormat Host Script Buffer ContextSwitcher RegistrySpec.
Import Views.

Section WithUlid.
Context `{Ulid}.

(** C9 (SessionRegistry).  The first call of a session, one that has no
    identifier memoized, draws a fresh ULID, sources the script for it (its
    functions are defined, its cache is empty, its teardown autocommands are
    registered) and memoizes it.  From then on every call of that session
    returns the same identifier and leaves the whole state, host included,
    as it is.  A later first call, of whatever session, gets a different
    identifier. *)
Theorem ensurePrerequisites_idempotent (d : denops) :
  memoized d = None ->
  let first := ensurePrerequisites d in
  exists suffix,
    first = (Ok suffix, registered d) /\
    suffix = ulid (ulid_seed d) /\
    suffix ∈ functions (host first.2) /\
    caches (host first.2) !! suffix = Some ∅ /\
    (forall a, a ∈ teardown suffix -> a ∈ autocmds (host first.2)) /\
    memoized first.2 = Some suffix /\
    ensurePrerequisites first.2 = (Ok suffix, first.2) /\
    (forall d', memoized d' = Some suffix ->
       ensurePrerequisites d' = (Ok suffix, d')) /\
    (forall d', memoized d' = None ->
       (ulid_seed first.2 <= ulid_seed d')%nat ->
       (ensurePrerequisites d').1 <> Ok suffix).
Proof.
  intros Hnone. simpl. exists (ulid (ulid_seed d)).
  rewrite (ensurePrerequisites_first d Hnone). simpl.
  destruct (registered_defined d) as [Hf Hc].
  split_and!; try done.
  - intros a Ha. apply elem_of_app. by right.
  - apply memoized_registered.
  - apply ensurePrerequisites_memoized, memoized_registered.
  - intros d'. apply ensurePrerequisites_memoized.
  - intros d' Hnone' Hseed. rewrite (ensurePrerequisites_first d' Hnone').
    simpl. intros [= Heq%ulid_inj]. lia.
Qed.

End WithUlid.

#[local] Existing Instance Sample.sample_ulid.

(** [ensurePrerequisites_idempotent] at the sample session, which has
    nothing memoized. *)
Lemma ensurePrerequisites_idempotent_witness :
  memoized Sample.d0 = None /\
  exists suffix,
    ensurePrerequisites Sample.d0 = (Ok suffix, registered Sample.d0) /\
    ensurePrerequisites (registered Sample.d0)
    = (Ok suffix, registered Sample.d0).
Proof.
  split; [reflexivity|].
  destruct (ensurePrerequisites_idempotent Sample.d0 eq_refl)
    as (suffix & Hfirst & _ & _ & _ & _ & _ & Hagain & _).
  exists suffix. split; [exact Hfirst|].
  rewrite Hfirst in Hagain. exact Hagain.
Defined.

Example ensurePrerequisites_twice :
  let first := ensurePrerequisites Sample.d0 in
  first.1 = Ok "0" /\
  ensurePrerequisites first.2 = (Ok "0", first.2) /\
  length (autocmds (host first.2)) = 8%nat.
Proof. by vm_compute. Qed.

End RegistryTheorems.

(* ================================================================== *)
(** ** [decode] *)
(* ================================================================== *)

Module DecodeTheorems.
Import Eff Text TextFacts SplitFacts FileFormat FileFormatSpec FileEncoding.
Import FileEncodingSpec Host Script Buffer.
Import Views.
Import Sample.

Section WithDecoder.
Context `{TextDecoder}.

Lemma split_nonempty sep s : split sep s <> [].
Proof. unfold split. destruct (String.length s); simpl;
  destruct (cut sep s) as [[? ?]|]; done. Qed.

(** The text is decoded unless the caller names an encoding the platform
    does not know. *)
Lemma decode_text_ok data options fileencodingsStr :
  (forall enc, opt_fileencoding options = Some enc -> enc <> EmptyString ->
     supported enc = true) ->
  exists enc text,
    decode_text data options (split "," fileencodingsStr) = Ok (enc, text).
Proof.
  intros Hsup. unfold decode_text.
  destruct (opt_fileencoding options) as [[|c enc]|] eqn:E.
  - pose proof (split_nonempty "," fileencodingsStr).
    destruct (split "," fileencodingsStr) as [|e rest]; [done|]. simpl.
    destruct (tryDecode_from data e rest). eauto.
  - rewrite (Hsup (String c enc)) by done. eauto.
  - pose proof (split_nonempty "," fileencodingsStr).
    destruct (split "," fileencodingsStr) as [|e rest]; [done|]. simpl.
    destruct (tryDecode_from data e rest). eauto.
Qed.

(** C1, amended (decode).  For a buffer that exists and an encoding option
    the platform knows (or none), [decode] succeeds without changing the
    state; its encoding and text are those of [decode_text]; its content is
    [splitText] of the text under the chosen format; and the chosen format
    is the one [options.fileformat] names when it names one (unix, dos or
    mac), otherwise the one detected in the text among the host's
    ['fileformats'], otherwise the buffer's own ['fileformat']. *)
Theorem decode_fileformat (bufnr : Z) (data : list Byte.byte)
    (options : DecodeOptions) (d : denops) (bf : FileFormat) :
  getbufvar_fileformat bufnr (host d) = Some bf ->
  (forall enc, opt_fileencoding options = Some enc -> enc <> EmptyString ->
     supported enc = true) ->
  exists enc text r,
    decode_text data options (split "," (fileencodings (host d)))
      = Ok (enc, text) /\
    decode bufnr data options d = (Ok r, d) /\
    fileencoding r = enc /\
    content r = splitText text (fileformat r) /\
    let detected :=
      findFileFormat text
        (as_fileformats (split "," (fileformats (host d)))) in
    (forall f, opt_fileformat options = Some (name f) -> fileformat r = f) /\
    (maybe_fileformat options = None ->
       forall f, detected = Some f -> fileformat r = f) /\
    (maybe_fileformat options = None ->
       detected = None -> fileformat r = bf).
Proof.
  intros Hbf Hsup.
  destruct (decode_text_ok data options (fileencodings (host d)) Hsup)
    as (enc & text & Htext).
  exists enc, text.
  unfold decode, call, zoom, gets, mbind, eff_bind. simpl.
  rewrite Hbf, Htext. simpl.
  destruct d as [v ctx seed]. unfold set_host. simpl in *.
  destruct (maybe_fileformat options) as [f|] eqn:Hopt.
  - eexists. split_and!; try done. simpl.
    intros f' Hf'. unfold maybe_fileformat in Hopt.
    rewrite Hf' in Hopt. simpl in Hopt. rewrite parse_name in Hopt.
    by injection Hopt.
  - destruct (findFileFormat text _) as [f|] eqn:Hfind.
    + eexists. split_and!; try done; simpl.
      * intros f' Hf'. unfold maybe_fileformat in Hopt.
        rewrite Hf' in Hopt. simpl in Hopt. by rewrite parse_name in Hopt.
      * intros _ f' [= <-]. done.
    + eexists. split_and!; try done; simpl.
      intros f' Hf'. unfold maybe_fileformat in Hopt.
      rewrite Hf' in Hopt. simpl in Hopt. by rewrite parse_name in Hopt.
Qed.

End WithDecoder.

#[local] Existing Instance example_decoder.

(** C1 as stated fails: a format override is given, "foo", and the
    result's format is not it; the override names no format, and the
    detected format is taken. *)
Lemma decode_ignores_unknown_override :
  exists r,
    decode 1 sample_bytes foo_options Sample.d0 = (Ok r, Sample.d0) /\
    opt_fileformat foo_options = Some "foo" /\
    name (fileformat r) = "unix" /\
    Some (name (fileformat r)) <> opt_fileformat foo_options.
Proof. eexists. by vm_compute. Qed.

(** [decode_fileformat] at buffer 1 of the sample session, with the
    override "mac". *)
Lemma decode_fileformat_witness :
  getbufvar_fileformat 1 (host Sample.d0) = Some unix /\
  exists r,
    decode 1 sample_bytes mac_options Sample.d0 = (Ok r, Sample.d0) /\
    fileformat r = mac.
Proof.
  split; [reflexivity|].
  destruct (decode_fileformat 1 sample_bytes mac_options Sample.d0 unix
              eq_refl) as (enc & text & r & _ & Hr & _ & _ & Hov & _).
  { intros enc. discriminate. }
  exists r. split; [exact Hr|]. by apply Hov.
Defined.

Example decode_detects :
  (decode 1 sample_bytes no_options Sample.d0).1
  = Ok {| content := ["a" +:+ cr; "b"]; fileformat := unix;
          fileencoding := "us-ascii" |}.
Proof. reflexivity. Qed.

Example decode_override :
  (decode 1 sample_bytes mac_options Sample.d0).1
  = Ok {| content := ["a"; nl +:+ "b"]; fileformat := mac;
          fileencoding := "us-ascii" |}.
Proof. reflexivity. Qed.

End DecodeTheorems.

Module LoadSpec.
Import Eff Load.

Section WithPlatform.
Context {W : Type} `{Platform W}.

Lemma has_add url (p : process W) : has url (loaded (add url p)) = true.
Proof.
  unfold add. simpl. destruct (has url (loaded p)) eqn:E; [done|].
  unfold has. rewrite existsb_app. simpl.
  by rewrite Nat.eqb_refl, orb_true_r.
Qed.

(** A URL object that is in the set is not loaded again: the call answers
    false and changes nothing, the outside included. *)
Lemma load_cached url options (p : process W) :
  has url (loaded p) = true -> not_forced options = true ->
  load url options p = (Ok false, p).
Proof.
  intros Hhas Hforce. unfold load, gets, mbind, eff_bind, mret, eff_ret.
  simpl. by rewrite Hhas, Hforce.
Qed.

(** Otherwise the script is fetched and sourced; the object enters the set
    when, and only when, both succeed. *)
Lemma load_runs url options (p : process W) :
  has url (loaded p) = false \/ not_forced options = false ->
  load url options p =
  match ensureLocalFile url (outside p) with
  | (Throw e, w) => (Throw e, set_outside w p)
  | (Ok path, w) =>
      match source path w with
      | (Throw e, w') => (Throw e, set_outside w' p)
      | (Ok _, w') => (Ok true, add url (set_outside w' p))
      end
  end.
Proof.
  intros Hrun.
  unfold load, platform, zoom, gets, modify, mbind, eff_bind, mret, eff_ret.
  simpl.
  assert (not_forced options && has url (loaded p) = false) as ->.
  { destruct Hrun as [-> | ->]; [apply andb_false_r | done]. }
  destruct (ensureLocalFile url (outside p)) as [[path|e] w]; [|done].
  simpl. by destruct (source path w) as [[?|?] w'].
Qed.

Lemma load_then_cached url options (p : process W) path w w' u :
  has url (loaded p) = false \/ not_forced options = false ->
  ensureLocalFile url (outside p) = (Ok path, w) ->
  source path w = (Ok u, w') ->
  let p' := add url (set_outside w' p) in
  load url options p = (Ok true, p') /\
  load url {| force := None |} p' = (Ok false, p') /\
  load url {| force := Some false |} p' = (Ok false, p').
Proof.
  intros Hrun Hfile Hsrc. simpl.
  rewrite (load_runs url options p Hrun), Hfile, Hsrc.
  split_and!; [done | |]; apply load_cached; try done; apply has_add.
Qed.

End WithPlatform.

#[local] Existing Instance sample_platform.

(** C10 fails on the code: after a successful load of
    [file:///plugin/foo.vim], a later load of the same URL through another
    [URL] object, without [force], answers true and sources the script a
    second time; only a load through the very same object is skipped. *)
Theorem load_same_url_twice :
  let start := Process [] [] in
  let first := load foo1 plain start in
  let again := load foo2 plain first.2 in
  let same_object := load foo1 plain first.2 in
  href foo1 = href foo2 /\
  first = (Ok true, Process ["/plugin/foo.vim"] [foo1]) /\
  again = (Ok true,
           Process ["/plugin/foo.vim"; "/plugin/foo.vim"] [foo1; foo2]) /\
  same_object = (Ok false, first.2).
Proof. by vm_compute. Qed.

Example load_forced :
  let first := load foo1 plain (Process [] []) in
  load foo1 forced first.2
  = (Ok true, Process ["/plugin/foo.vim"; "/plugin/foo.vim"] [foo1]).
Proof. reflexivity. Qed.

(** A failed load leaves the set as it is. *)
Example load_failed :
  load remote plain (Process [] [])
  = (Throw (Error "Failed to fetch"), Process [] []).
Proof. reflexivity. Qed.

End LoadSpec.

(* ================================================================== *)
(** ** [concrete]: the snapshot cache *)
(* ================================================================== *)

Module ConcreteSpec.
Import Eff Text FileFormat Host Script Buffer ContextSwitcher RegistrySpec.
Import AppendSpec.
Import Views.

Lemma DenopsStdBufferConcreteStore_spec suffix cache v :
  suffix ∈ functions v -> caches v !! suffix = Some cache ->
  DenopsStdBufferConcreteStore suffix v = (Ok tt, stored suffix cache v).
Proof.
  intros Hf Hc. unfold DenopsStdBufferConcreteStore, defined, concrete_cache.
  rewrite (bool_decide_true _ Hf). eff. by rewrite Hc.
Qed.

Lemma replaced_lines (repl l : list string) :
  repl <> [] ->
  let set := repl ++ drop (length repl) l in
  (if bool_decide
        (1 <= Z.of_nat (length repl) + 1 <= Z.of_nat (length set))
   then match take (Z.to_nat (Z.of_nat (length repl) + 1 - 1)) set with
        | [] => [EmptyString]
        | l' => l'
        end
   else set) = repl.
Proof.
  intros Hne. simpl. case_bool_decide as Hr.
  - replace (Z.to_nat (Z.of_nat (length repl) + 1 - 1)) with (length repl)
      by lia.
    rewrite take_app_length. by destruct repl.
  - rewrite length_app, length_drop in Hr.
    assert (length l <= length repl)%nat as Hle by lia.
    by rewrite drop_ge, app_nil_r.
Qed.

Lemma DenopsStdBufferReplace_spec suffix buf repl b v :
  suffix ∈ functions v -> buffers v !! buf = Some b -> repl <> [] ->
  DenopsStdBufferReplace suffix buf repl None None v
  = (Ok tt, replaced buf repl b v).
Proof.
  intros Hf Hb Hne. unfold DenopsStdBufferReplace, defined.
  rewrite (bool_decide_true _ Hf).
  pose proof (replaced_lines repl (b_lines b) Hne) as Hlines. simpl in Hlines.
  destruct repl as [|x repl]; [done|].
  vim_unfold. eff. rewrite !lookup_alter_eq, Hb. simpl.
  rewrite (bool_decide_true (1 <= 1 <= _)) by lia. simpl.
  rewrite lookup_insert_eq. simpl.
  destruct v as [bufs wins cur ffs fencs funs cs aus]. simpl in *.
  unfold replaced, with_buffers. simpl.
  case_bool_decide as Hr; simpl in *; f_equal; f_equal;
    apply map_eq; intros i;
    (destruct (decide (buf = i)) as [->|Hi];
     [ repeat (rewrite ?lookup_alter_eq, ?lookup_insert_eq; simpl);
       rewrite ?Hb; simpl; rewrite ?Hlines; by destruct b
     | by rewrite ?lookup_alter_ne, ?lookup_insert_ne, ?lookup_alter_ne,
         ?lookup_insert_ne, ?lookup_alter_ne by done ]).
Qed.

Lemma DenopsStdBufferConcreteRestore_snapshot suffix cache c b v :
  suffix ∈ functions v -> caches v !! suffix = Some cache ->
  cache !! bufnr v = Some c -> buffers v !! bufnr v = Some b ->
  s_content c <> [] ->
  DenopsStdBufferConcreteRestore suffix v
  = (Ok tt,
     with_buffers (alter (set_filetype (s_filetype c)) (bufnr v))
       (replaced (bufnr v) (s_content c) b v)).
Proof.
  intros Hf Hc Hs Hb Hne.
  unfold DenopsStdBufferConcreteRestore, defined at 1, concrete_cache.
  rewrite (bool_decide_true _ Hf).
  unfold mbind, eff_bind, gets. rewrite Hc, Hs.
  by rewrite (DenopsStdBufferReplace_spec suffix _ _ b v Hf Hb Hne).
Qed.

Lemma DenopsStdBufferConcreteRestore_nothing suffix cache v :
  suffix ∈ functions v -> caches v !! suffix = Some cache ->
  cache !! bufnr v = None ->
  DenopsStdBufferConcreteRestore suffix v = (Ok tt, v).
Proof.
  intros Hf Hc Hs.
  unfold DenopsStdBufferConcreteRestore, defined, concrete_cache.
  rewrite (bool_decide_true _ Hf).
  unfold mbind, eff_bind, gets. by rewrite Hc, Hs.
Qed.

(** *** Events with one matching hook *)

Lemma filter_none {A} (f : A -> bool) (l : list A) :
  (forall x, x ∈ l -> f x = false) -> List.filter f l = [].
Proof.
  induction l as [|x l IH]; [done|]. intros Hall. simpl.
  rewrite (Hall x) by left. apply IH. intros y Hy. apply Hall. by right.
Qed.

Lemma filter_all {A} (f : A -> bool) (l : list A) :
  (forall x, x ∈ l -> f x = true) -> List.filter f l = l.
Proof.
  induction l as [|x l IH]; [done|]. intros Hall. simpl.
  rewrite (Hall x) by left. f_equal. apply IH. intros y Hy. apply Hall.
  by right.
Qed.

Lemma doautocmd_single event pat a v :
  List.filter (au_matches event pat) (autocmds v) = [a] ->
  au_once a = false ->
  doautocmd event pat v = (run_command (au_cmd a) v).2.
Proof.
  intros Hmatch Honce. unfold doautocmd, with_autocmds. rewrite Hmatch.
  rewrite filter_all; [by destruct v|].
  intros x Hx. destruct (au_matches event pat x) eqn:E; [|done].
  assert (x ∈ List.filter (au_matches event pat) (autocmds v)) as Hin.
  { apply list_elem_of_In, List.filter_In.
    by rewrite <- list_elem_of_In. }
  rewrite Hmatch in Hin. apply list_elem_of_singleton in Hin as ->.
  by rewrite Honce.
Qed.

(** The hooks that match an event of buffer [bufnr], when [old] holds no
    autocommand of that buffer. *)
Lemma matching_hooks event suffix bufnr old :
  (forall a, a ∈ old -> au_pat a <> PatBuffer bufnr) ->
  List.filter (au_matches event (PatBuffer bufnr))
    (old ++ [write_hook suffix bufnr; read_hook suffix bufnr])
  = List.filter (fun a => bool_decide (au_event a = event))
      [write_hook suffix bufnr; read_hook suffix bufnr].
Proof.
  intros Hold. rewrite List.filter_app, filter_none.
  - simpl. unfold au_matches. simpl.
    by rewrite !(bool_decide_true (PatBuffer bufnr = PatBuffer bufnr)),
      !andb_true_r by done.
  - intros a Ha. unfold au_matches.
    rewrite (bool_decide_false (au_pat a = _)), andb_false_r; [done|].
    by apply Hold.
Qed.

(** *** [concrete] *)

Lemma teardown_pattern suffix a bufnr :
  a ∈ teardown suffix -> au_pat a <> PatBuffer bufnr.
Proof.
  unfold teardown. cbn. rewrite !elem_of_cons, elem_of_nil.
  intros Ha. repeat destruct Ha as [-> | Ha]; done.
Qed.

Section WithUlid.
Context `{Ulid}.

Lemma ensurePrerequisites_suffix d :
  session_ready d ->
  let d' := (ensurePrerequisites d).2 in
  ensurePrerequisites d = (Ok (session_suffix d), d') /\
  session_suffix d ∈ functions (host d') /\
  is_Some (caches (host d') !! session_suffix d) /\
  (forall a, a ∈ autocmds (host d') ->
     a ∈ autocmds (host d) \/ a ∈ teardown (session_suffix d)).
Proof.
  intros Hready. unfold session_suffix. simpl.
  destruct (memoized d) as [s|] eqn:E; simpl.
  - rewrite (ensurePrerequisites_memoized d s E). simpl.
    destruct (Hready s E) as [? ?]. split_and!; try done. by left.
  - rewrite (ensurePrerequisites_first d E). simpl.
    destruct (registered_defined d) as [? Hc].
    split_and!; try done.
    intros a [Ha|Ha]%elem_of_app; [left | by right].
    by apply list_elem_of_filter in Ha as [_ ?].
Qed.

Lemma concrete_run bufnr d :
  session_ready d ->
  let d' := (ensurePrerequisites d).2 in
  let s := session_suffix d in
  exists cache,
    caches (host d') !! s = Some cache /\
    concrete bufnr d
    = (Ok tt,
       set_host (stored s cache (with_autocmds (hooked s bufnr) (host d'))) d').
Proof.
  intros Hready. simpl.
  destruct (ensurePrerequisites_suffix d Hready) as (Hrun & Hf & [cache Hc] & _).
  exists cache. split; [done|].
  unfold concrete, mbind at 1, eff_bind at 1. rewrite Hrun.
  unfold call, zoom, autocmd_remove_all, autocmd_define.
  unfold mbind, eff_bind, modify. simpl.
  rewrite (DenopsStdBufferConcreteStore_spec _ cache) by done.
  simpl. unfold hooked. do 3 f_equal.
  destruct (host _). unfold with_autocmds. simpl. f_equal.
  by rewrite <- app_assoc.
Qed.

Lemma hooked_matching event bufnr d :
  (forall a, a ∈ autocmds (host d) -> au_pat a = PatBuffer bufnr ->
     au_group a = group_concrete (session_suffix d)) ->
  session_ready d ->
  List.filter (au_matches event (PatBuffer bufnr))
    (hooked (session_suffix d) bufnr
       (autocmds (host (ensurePrerequisites d).2)))
  = List.filter (fun a => bool_decide (au_event a = event))
      [write_hook (session_suffix d) bufnr; read_hook (session_suffix d) bufnr].
Proof.
  intros Halone Hready. apply matching_hooks.
  intros a [Hnot Ha]%list_elem_of_filter Hpat.
  destruct (ensurePrerequisites_suffix d Hready) as (_ & _ & _ & Hau).
  destruct (Hau a Ha) as [Hold | Htear].
  - apply Hnot. split; [by apply Halone | done].
  - by apply (teardown_pattern _ _ bufnr) in Htear.
Qed.

End WithUlid.

End ConcreteSpec.

Module ConcreteTheorems.
Import Eff Text FileFormat Host Script Buffer ContextSwitcher RegistrySpec.
Import ConcreteSpec.
Import Views.

Section WithUlid.
Context `{Ulid}.

Lemma write_event bufnr d v cache :
  session_ready d ->
  (forall a, a ∈ autocmds (host d) -> au_pat a = PatBuffer bufnr ->
     au_group a = group_concrete (session_suffix d)) ->
  same_registry (host (concrete bufnr d).2) v ->
  Host.bufnr v = bufnr ->
  caches v !! session_suffix d = Some cache ->
  buffer_event "BufWriteCmd" v = stored (session_suffix d) cache v.
Proof.
  intros Hready Halone (Hf & Hc & Ha) Hcur Hcache.
  destruct (concrete_run bufnr d Hready) as (cache0 & Hc0 & Hrun).
  destruct (ensurePrerequisites_suffix d Hready) as (_ & Hdef & _ & _).
  rewrite Hrun in Hf, Hc, Ha. simpl in Hf, Hc, Ha.
  unfold buffer_event. rewrite Hcur.
  rewrite (doautocmd_single _ _ (write_hook (session_suffix d) bufnr)).
  - simpl. rewrite (DenopsStdBufferConcreteStore_spec _ cache); try done.
    by rewrite Hf.
  - rewrite Ha. by rewrite (hooked_matching _ _ _ Halone Hready).
  - done.
Qed.

Lemma read_event bufnr d v :
  session_ready d ->
  (forall a, a ∈ autocmds (host d) -> au_pat a = PatBuffer bufnr ->
     au_group a = group_concrete (session_suffix d)) ->
  functions v = functions (host (concrete bufnr d).2) ->
  autocmds v = autocmds (host (concrete bufnr d).2) ->
  Host.bufnr v = bufnr ->
  session_suffix d ∈ functions v /\
  buffer_event "BufReadCmd" v
  = (DenopsStdBufferConcreteRestore (session_suffix d) v).2.
Proof.
  intros Hready Halone Hf Ha Hcur.
  destruct (concrete_run bufnr d Hready) as (cache0 & Hc0 & Hrun).
  destruct (ensurePrerequisites_suffix d Hready) as (_ & Hdef & _ & _).
  rewrite Hrun in Hf, Ha. simpl in Hf, Ha.
  split; [by rewrite Hf|].
  unfold buffer_event. rewrite Hcur.
  rewrite (doautocmd_single _ _ (read_hook (session_suffix d) bufnr));
    [done | | done].
  rewrite Ha. by rewrite (hooked_matching _ _ _ Halone Hready).
Qed.

(** C4 (ConcreteCache).  After [concrete] of a buffer, let the buffer be
    edited, and the write hook fire with the buffer holding the lines and
    the file type of [written]: the cache then holds exactly that
    snapshot.  Let the content then be discarded, and the read hook fire
    with the buffer being [discarded]: the buffer gets the lines and the
    file type of [written], whatever it held when [concrete] was called,
    and keeps its other settings.  And when the read hook fires with no
    snapshot stored for the buffer, nothing changes.  (The editor keeps
    the functions, script variables and autocommands between the steps, and
    no other autocommand is defined for the buffer.) *)
Theorem concrete_restores_latest (bufnr : Z) (d : denops) (v2 v4 : vim)
    (written discarded : buffer) :
  let s := session_suffix d in
  let d1 := (concrete bufnr d).2 in
  let v3 := buffer_event "BufWriteCmd" v2 in
  let v5 := buffer_event "BufReadCmd" v4 in
  session_ready d ->
  (forall a, a ∈ autocmds (host d) -> au_pat a = PatBuffer bufnr ->
     au_group a = group_concrete s) ->
  same_registry (host d1) v2 -> Host.bufnr v2 = bufnr ->
  buffers v2 !! bufnr = Some written -> b_lines written <> [] ->
  same_registry v3 v4 -> Host.bufnr v4 = bufnr ->
  buffers v4 !! bufnr = Some discarded ->
  (concrete bufnr d).1 = Ok tt /\
  (exists cache,
     caches v3 !! s = Some cache /\
     cache !! bufnr = Some (Snapshot (b_filetype written) (b_lines written))) /\
  buffers v5 !! bufnr
  = Some (set_filetype (b_filetype written)
            (set_lines (b_lines written) discarded)) /\
  (forall v cache,
     functions v = functions (host d1) -> autocmds v = autocmds (host d1) ->
     Host.bufnr v = bufnr ->
     caches v !! s = Some cache -> cache !! bufnr = None ->
     buffer_event "BufReadCmd" v = v).
Proof.
  intros s d1 v3 v5 Hready Halone Hreg2 Hcur2 Hb2 Hne Hreg4 Hcur4 Hb4.
  subst s d1.
  set (s := session_suffix d) in *.
  destruct (concrete_run bufnr d Hready) as (cache0 & Hc0 & Hrun).
  assert (exists cache2, caches v2 !! s = Some cache2) as [cache2 Hc2].
  { destruct Hreg2 as (_ & -> & _). rewrite Hrun. simpl.
    rewrite lookup_insert_eq. eauto. }
  assert (v3 = stored s cache2 v2) as Hv3.
  { by apply (write_event bufnr d). }
  assert (caches v3 !! s
          = Some (<[bufnr := Snapshot (b_filetype written) (b_lines written)]>
                    cache2)) as Hc3.
  { rewrite Hv3. unfold stored, current_snapshot, get_filetype, getline_all.
    simpl. rewrite lookup_insert_eq, Hcur2, Hb2. done. }
  split_and!.
  - by rewrite Hrun.
  - eexists. split; [exact Hc3 | apply lookup_insert_eq].
  - destruct Hreg4 as (Hf4 & Hcache4 & Ha4).
    rewrite Hv3 in Hf4, Ha4. simpl in Hf4, Ha4.
    destruct Hreg2 as (Hf2 & _ & Ha2).
    destruct (read_event bufnr d v4 Hready Halone) as [Hdef Hev];
      [congruence | congruence | done |].
    subst v5. rewrite Hev.
    rewrite (DenopsStdBufferConcreteRestore_snapshot s
               (<[bufnr := Snapshot (b_filetype written) (b_lines written)]>
                  cache2)
               (Snapshot (b_filetype written) (b_lines written)) discarded);
      try done.
    + simpl. rewrite Hcur4. unfold replaced. simpl.
      by rewrite lookup_alter_eq, lookup_insert_eq.
    + by rewrite Hcache4.
    + rewrite Hcur4. apply lookup_insert_eq.
    + by rewrite Hcur4.
  - intros v cache Hf Ha Hcur Hc Hnone.
    destruct (read_event bufnr d v Hready Halone Hf Ha Hcur) as [Hdef ->].
    rewrite (DenopsStdBufferConcreteRestore_nothing s cache); try done.
    by rewrite Hcur.
Qed.

End WithUlid.
End ConcreteTheorems.

Module ConcreteExamples.
Import Eff Text FileFormat Host Script Buffer ContextSwitcher RegistrySpec.
Import ConcreteSpec ConcreteTheorems Sample.
Import Views.

#[local] Existing Instance Sample.sample_ulid.

(** [concrete_restores_latest] at buffer 1 of the sample session: the
    buffer held "a", "b" and the file type "text" when [concrete] was
    called; what comes back is what was written. *)
Lemma concrete_restores_latest_witness :
  buffers (host d0) !! 1
    = Some (Buffer ["a"; "b"] false false unix "utf-8" "text" 2) /\
  buffers after_discard !! 1 = Some emptied /\
  buffers (buffer_event "BufReadCmd" after_discard) !! 1
    = Some (Buffer ["new"; "text"] false true unix "utf-8" "markdown" 1).
Proof.
  split; [reflexivity|]. split; [reflexivity|].
  refine (proj1 (proj2 (proj2
    (concrete_restores_latest 1 d0 after_edit after_discard edited emptied
       _ _ _ _ _ _ _ _ _)))).
  - intros s Hs. vm_compute in Hs. discriminate Hs.
  - intros a Ha. simpl in Ha. by apply elem_of_nil in Ha.
  - by split_and!.
  - by vm_compute.
  - by vm_compute.
  - discriminate.
  - by split_and!.
  - by vm_compute.
  - by vm_compute.
Defined.

(** The same run, evaluated. *)
Example concrete_run_evaluated :
  (concrete 1 d0).1 = Ok tt /\
  (caches (host (concrete 1 d0).2) !! "0") ≫= (.!! 1)
    = Some (Snapshot "text" ["a"; "b"]) /\
  (caches (buffer_event "BufWriteCmd" after_edit) !! "0") ≫= (.!! 1)
    = Some (Snapshot "markdown" ["new"; "text"]) /\
  buffers (buffer_event "BufReadCmd" after_discard) !! 1
    = Some (Buffer ["new"; "text"] false true unix "utf-8" "markdown" 1).
Proof. by vm_compute. Qed.

(** A second [concrete] of the same buffer replaces its hooks. *)
Example concrete_twice :
  let once := (concrete 1 d0).2 in
  let twice := (concrete 1 once).2 in
  length (List.filter (au_matches "BufReadCmd" (PatBuffer 1))
            (autocmds (host twice))) = 1%nat.
Proof. by vm_compute. Qed.

(** A shorter snapshot: the lines past it are deleted. *)
Example replace_shorter :
  let v := with_functions (union {["0"]}) vim0 in
  b_lines <$>
    buffers (DenopsStdBufferReplace "0" 3 ["only"] None None v).2 !! 3
  = Some ["only"].
Proof. by vm_compute. Qed.

End ConcreteExamples.

(* ================================================================== *)
(** ** The builtins, step by step *)
(* ================================================================== *)

Module HostSteps.
Import Eff Text FileFormat FileFormatSpec Host Script Buffer Views MoreViews.

Lemma bind_run {S A B} (m : Eff S A) (f : A -> Eff S B) s :
  (m ≫= f) s =
  match m s with
  | (Ok a, s') => f a s'
  | (Throw e, s') => (Throw e, s')
  end.
Proof. reflexivity. Qed.

Lemma at_buffer_id buf b v : buffers v !! buf = Some b -> at_buffer buf b v = v.
Proof.
  intros Hb. destruct v. unfold at_buffer, with_buffers. simpl in *.
  f_equal. by apply insert_id.
Qed.

Lemma at_buffer_lookup buf b v : buffers (at_buffer buf b v) !! buf = Some b.
Proof. apply lookup_insert_eq. Qed.

Lemma at_buffer_other buf b v i :
  i <> buf -> buffers (at_buffer buf b v) !! i = buffers v !! i.
Proof. intros Hi. simpl. by rewrite lookup_insert_ne. Qed.

Lemma at_buffer_again buf b b' v :
  at_buffer buf b' (at_buffer buf b v) = at_buffer buf b' v.
Proof.
  destruct v. unfold at_buffer, with_buffers. simpl. f_equal.
  apply insert_insert_eq.
Qed.

Lemma alter_at_buffer f buf b v :
  with_buffers (alter f buf) (at_buffer buf b v) = at_buffer buf (f b) v.
Proof.
  destruct v. unfold at_buffer, with_buffers. simpl. f_equal.
  apply map_eq. intros i. destruct (decide (i = buf)) as [->|Hi].
  - by rewrite lookup_alter_eq, !lookup_insert_eq.
  - by rewrite lookup_alter_ne, !lookup_insert_ne.
Qed.

Lemma run_setbufvar_modified buf x b v :
  setbufvar_modified buf x (at_buffer buf b v)
  = (Ok tt, at_buffer buf (set_modified x b) v).
Proof. unfold setbufvar_modified, modify. by rewrite alter_at_buffer. Qed.

Lemma run_setbufvar_modifiable buf x b v :
  setbufvar_modifiable buf x (at_buffer buf b v)
  = (Ok tt, at_buffer buf (set_modifiable x b) v).
Proof. unfold setbufvar_modifiable, modify. by rewrite alter_at_buffer. Qed.

Lemma run_setbufvar_fileencoding buf x b v :
  setbufvar_fileencoding buf x (at_buffer buf b v)
  = (Ok tt, at_buffer buf (set_fileencoding x b) v).
Proof. unfold setbufvar_fileencoding, modify. by rewrite alter_at_buffer. Qed.

Lemma run_setbufvar_fileformat buf x f b v :
  parse x = Some f ->
  setbufvar_fileformat buf x (at_buffer buf b v)
  = (Ok tt, at_buffer buf (set_fileformat f b) v).
Proof.
  intros Hx. unfold setbufvar_fileformat, modify. rewrite Hx.
  by rewrite alter_at_buffer.
Qed.

Lemma run_setbufvar_fileformat_invalid buf x v :
  parse x = None -> setbufvar_fileformat buf x v = (Throw E474, v).
Proof. intros Hx. unfold setbufvar_fileformat. by rewrite Hx. Qed.

Lemma run_getbufvar_modified buf b v :
  getbufvar_modified buf (at_buffer buf b v) = b_modified b.
Proof. unfold getbufvar_modified. by rewrite at_buffer_lookup. Qed.

Lemma run_getbufvar_modifiable buf b v :
  getbufvar_modifiable buf (at_buffer buf b v) = b_modifiable b.
Proof. unfold getbufvar_modifiable. by rewrite at_buffer_lookup. Qed.

(** A change of the text, in the three ways it can go. *)
Lemma run_change_lines buf ok f b v :
  change_lines buf ok f (at_buffer buf b v) =
  if negb (ok (b_lines b)) then (Ok 1, at_buffer buf b v)
  else if negb (b_modifiable b) then (Throw E21, at_buffer buf b v)
  else (Ok 0, at_buffer buf (set_modified true (set_lines (f (b_lines b)) b)) v).
Proof.
  unfold change_lines. rewrite at_buffer_lookup.
  destruct (ok (b_lines b)); simpl; [|done].
  destruct (b_modifiable b); simpl; [|done].
  fold (at_buffer buf (set_modified true (set_lines (f (b_lines b)) b))
          (at_buffer buf b v)).
  by rewrite at_buffer_again.
Qed.

End HostSteps.

(* ================================================================== *)
(** ** [replace] *)
(* ================================================================== *)

Module ReplaceSpec.
Import Eff Text FileFormat FileFormatSpec Host Script Buffer Views MoreViews.
Import HostSteps.

Lemma defined_run {A} suffix (body : Eff vim A) v :
  suffix ∈ functions v -> defined suffix body v = body v.
Proof. intros Hf. unfold defined. by rewrite bool_decide_true. Qed.

Lemma defined_missing {A} suffix (body : Eff vim A) v :
  suffix ∉ functions v ->
  defined suffix body v = (Throw (VimError "E117: Unknown function"), v).
Proof. intros Hf. unfold defined. by rewrite bool_decide_false. Qed.

(** The lines after [setbufline(buf, 1, repl)] and
    [deletebufline(buf, len(repl) + 1, '$')]. *)
Lemma lines_after_replace (repl l : list string) :
  l <> [] ->
  let set := match repl with
             | [] => l
             | _ => repl ++ drop (length repl) l
             end in
  (if bool_decide (1 <= Z.of_nat (length repl) + 1 <= Z.of_nat (length set))
   then match take (Z.to_nat (Z.of_nat (length repl) + 1 - 1)) set with
        | [] => [EmptyString]
        | l' => l'
        end
   else set) = lines_given repl.
Proof.
  intros Hl. destruct repl as [|x repl].
  - simpl. rewrite bool_decide_true; [done|]. destruct l; [done|simpl; lia].
  - apply (ConcreteSpec.replaced_lines (x :: repl) l). done.
Qed.

Lemma run_format buf ff b v :
  format_accepted ff ->
  (match ff with
   | Some x => setbufvar_fileformat buf x
   | None => mret tt
   end) (at_buffer buf b v)
  = (Ok tt, at_buffer buf (with_format ff b) v).
Proof.
  intros Hff. unfold with_format. destruct ff as [x|]; simpl; [|done].
  specialize (Hff x eq_refl). unfold isFileFormat in Hff.
  destruct (parse x) as [f|] eqn:E; [|done].
  by rewrite (run_setbufvar_fileformat _ _ f).
Qed.

Lemma run_encoding buf fenc b v :
  (match fenc with
   | Some enc => setbufvar_fileencoding buf enc
   | None => mret tt
   end) (at_buffer buf b v)
  = (Ok tt, at_buffer buf (with_encoding fenc b) v).
Proof.
  destruct fenc as [enc|]; simpl; [|done]. apply run_setbufvar_fileencoding.
Qed.

Lemma run_setbufline_first buf repl b v :
  b_modifiable b = true ->
  setbufline buf 1 repl (at_buffer buf b v)
  = (Ok 0,
     at_buffer buf
       match repl with
       | [] => b
       | _ => set_modified true
                (set_lines (repl ++ drop (length repl) (b_lines b)) b)
       end v).
Proof.
  intros Hmo. unfold setbufline. destruct repl as [|x repl]; [done|].
  rewrite run_change_lines, Hmo. simpl.
  rewrite bool_decide_true by lia. done.
Qed.

Lemma with_format_modifiable ff b :
  b_modifiable (with_format ff b) = b_modifiable b.
Proof. unfold with_format. by destruct (ff ≫= parse). Qed.

Lemma with_encoding_modifiable fenc b :
  b_modifiable (with_encoding fenc b) = b_modifiable b.
Proof. by destruct fenc. Qed.

Lemma with_format_lines ff b : b_lines (with_format ff b) = b_lines b.
Proof. unfold with_format. by destruct (ff ≫= parse). Qed.

Lemma with_encoding_lines fenc b : b_lines (with_encoding fenc b) = b_lines b.
Proof. by destruct fenc. Qed.

Lemma DenopsStdBufferReplace_general suffix buf repl ff fenc b v :
  suffix ∈ functions v -> buffers v !! buf = Some b ->
  b_lines b <> [] -> format_accepted ff ->
  DenopsStdBufferReplace suffix buf repl ff fenc v
  = (Ok tt,
     at_buffer buf
       (set_modifiable (b_modifiable b)
          (set_modified (b_modified b)
             (set_lines (lines_given repl)
                (with_encoding fenc
                   (with_format ff (set_modifiable true b)))))) v).
Proof.
  intros Hf Hb Hl Hff. unfold DenopsStdBufferReplace.
  rewrite (defined_run _ _ _ Hf).
  rewrite <- (at_buffer_id buf b v Hb) at 1.
  rewrite bind_run. unfold gets at 1. cbv beta iota.
  rewrite bind_run. unfold gets at 1. cbv beta iota.
  rewrite run_getbufvar_modified, run_getbufvar_modifiable.
  rewrite bind_run, run_setbufvar_modifiable. cbv beta iota.
  rewrite bind_run, (run_format _ _ _ _ Hff). cbv beta iota.
  rewrite bind_run, run_encoding. cbv beta iota.
  set (b1 := with_encoding fenc (with_format ff (set_modifiable true b))).
  assert (b_modifiable b1 = true) as Hmo1.
  { subst b1. by rewrite with_encoding_modifiable, with_format_modifiable. }
  assert (b_lines b1 = b_lines b) as Hl1.
  { subst b1. by rewrite with_encoding_lines, with_format_lines. }
  rewrite bind_run, (run_setbufline_first _ _ _ _ Hmo1). cbv beta iota.
  rewrite bind_run. unfold deletebufline_to_end. rewrite run_change_lines.
  pose proof (lines_after_replace repl (b_lines b) Hl) as Hlines.
  cbv zeta in Hlines.
  destruct repl as [|x repl].
  - rewrite Hmo1, Hl1. simpl in Hlines |- *.
    destruct (bool_decide _) eqn:E; simpl.
    + rewrite bind_run, run_setbufvar_modified. cbv beta iota.
      rewrite run_setbufvar_modifiable. by destruct b1.
    + exfalso. apply bool_decide_eq_false in E. apply E.
      destruct (b_lines b); [done | simpl; lia].
  - cbn [b_modifiable b_lines set_modified set_lines negb].
    rewrite Hl1.
    destruct (bool_decide _) eqn:E; cbn [negb] in *.
    + rewrite Hmo1. cbn [negb]. rewrite bind_run, run_setbufvar_modified. cbv beta iota.
      rewrite run_setbufvar_modifiable. rewrite <- Hlines. by destruct b1.
    + rewrite bind_run, run_setbufvar_modified. cbv beta iota.
      rewrite run_setbufvar_modifiable. rewrite <- Hlines. by destruct b1.
Qed.

(** The buffer the function leaves has the flags it found. *)
Lemma replaced_buffer repl ff fenc b :
  set_modifiable (b_modifiable b)
    (set_modified (b_modified b)
       (set_lines (lines_given repl)
          (with_encoding fenc (with_format ff (set_modifiable true b)))))
  = set_lines (lines_given repl) (with_encoding fenc (with_format ff b)).
Proof.
  unfold with_format, with_encoding.
  by destruct fenc, (ff ≫= parse), b.
Qed.

Lemma DenopsStdBufferReplace_run suffix buf repl ff fenc b v :
  suffix ∈ functions v -> buffers v !! buf = Some b ->
  b_lines b <> [] -> format_accepted ff ->
  DenopsStdBufferReplace suffix buf repl ff fenc v
  = (Ok tt, replaced_with buf repl ff fenc b v).
Proof.
  intros Hf Hb Hl Hff.
  rewrite (DenopsStdBufferReplace_general _ _ _ _ _ b) by done.
  by rewrite replaced_buffer.
Qed.

(** A format that is none: the function stops at [setbufvar], after it
    switched ['modifiable'] on. *)
Lemma DenopsStdBufferReplace_invalid suffix buf repl x fenc b v :
  suffix ∈ functions v -> buffers v !! buf = Some b ->
  isFileFormat x = false ->
  DenopsStdBufferReplace suffix buf repl (Some x) fenc v
  = (Throw E474, at_buffer buf (set_modifiable true b) v).
Proof.
  intros Hf Hb Hx. unfold DenopsStdBufferReplace.
  rewrite (defined_run _ _ _ Hf).
  rewrite <- (at_buffer_id buf b v Hb) at 1.
  rewrite bind_run. unfold gets at 1. cbv beta iota.
  rewrite bind_run. unfold gets at 1. cbv beta iota.
  rewrite bind_run, run_setbufvar_modifiable. cbv beta iota.
  rewrite bind_run, run_setbufvar_fileformat_invalid; [done|].
  unfold isFileFormat in Hx. by destruct (parse x).
Qed.

Lemma call_run {A} (m : Eff vim A) d :
  call m d = ((m (host d)).1, set_host (m (host d)).2 d).
Proof. unfold call, zoom. by destruct (m (host d)). Qed.

Section WithUlid.
Context `{Ulid}.

Lemma replace_run bufnr repl options d :
  session_ready d ->
  replace bufnr repl options d
  = call (DenopsStdBufferReplace (session_suffix d) bufnr repl
            (ropt_fileformat options) (ropt_fileencoding options))
      (ensurePrerequisites d).2.
Proof.
  intros Hready.
  destruct (ConcreteSpec.ensurePrerequisites_suffix d Hready) as (Hrun & _).
  unfold replace. rewrite bind_run. by rewrite Hrun.
Qed.

Lemma ready_ensurePrerequisites d :
  session_ready d -> session_ready (ensurePrerequisites d).2.
Proof.
  intros Hready s Hs.
  destruct (RegistrySpec.ensurePrerequisites_spec d)
    as (s' & _ & Hm & _ & _ & _ & Hdef).
  rewrite Hm in Hs. injection Hs as <-. by apply Hdef.
Qed.

Lemma ready_set_host v d :
  session_ready d ->
  functions v = functions (host d) ->
  (forall s, is_Some (caches (host d) !! s) -> is_Some (caches v !! s)) ->
  session_ready (set_host v d).
Proof.
  intros Hready Hf Hc s Hs. destruct (Hready s Hs) as [? ?].
  simpl. rewrite Hf. split; [done | by apply Hc].
Qed.

Lemma memoized_session_suffix d s :
  memoized d = Some s -> session_suffix d = s.
Proof. unfold session_suffix. by intros ->. Qed.

Lemma memoized_ensurePrerequisites d :
  memoized (ensurePrerequisites d).2 = Some (session_suffix d).
Proof.
  unfold session_suffix. destruct (memoized d) as [s|] eqn:E; simpl.
  - by rewrite (RegistrySpec.ensurePrerequisites_memoized d s E).
  - rewrite (RegistrySpec.ensurePrerequisites_first d E).
    apply RegistrySpec.memoized_registered.
Qed.

End WithUlid.

End ReplaceSpec.

Module ReplaceTheorems.
Import Eff Text FileFormat FileFormatSpec Host Script Buffer Views MoreViews.
Import HostSteps ReplaceSpec RegistrySpec ConcreteSpec.

Section WithUlid.
Context `{Ulid}.

(** X1 ([replace]).  In a ready session, for a buffer that exists and a
    format option that is absent or names a format, [replace] succeeds,
    whether or not the buffer is modifiable.  Of the buffers only the
    given one changes: its lines are the given ones (one empty line when
    none is given), its format and encoding are the given ones, and its
    modified and modifiable flags are those it had.  Windows and the
    current window stay. *)
Theorem replace_sets_content (bufnr : Z) (repl : list string)
    (options : ReplaceOptions) (d : denops) (b : buffer) :
  session_ready d ->
  buffers (host d) !! bufnr = Some b -> b_lines b <> [] ->
  format_accepted (ropt_fileformat options) ->
  let exit := replace bufnr repl options d in
  let b' := set_lines (lines_given repl)
              (with_encoding (ropt_fileencoding options)
                 (with_format (ropt_fileformat options) b)) in
  exit.1 = Ok tt /\
  buffers (host exit.2) = <[bufnr := b']> (buffers (host d)) /\
  b_modified b' = b_modified b /\ b_modifiable b' = b_modifiable b /\
  windows (host exit.2) = windows (host d) /\
  curwin (host exit.2) = curwin (host d).
Proof.
  intros Hready Hb Hl Hff. simpl.
  rewrite (replace_run _ _ _ _ Hready), call_run.
  destruct (ensurePrerequisites_suffix d Hready) as (_ & Hf & _ & _).
  destruct (ensurePrerequisites_spec d) as (s & _ & _ & Hbufs & Hw & Hc & _).
  rewrite (DenopsStdBufferReplace_run _ _ _ _ _ b); try done;
    [|by rewrite Hbufs].
  simpl. rewrite Hbufs, Hw, Hc. split_and!; try done.
  - unfold with_encoding, with_format.
    by destruct (ropt_fileencoding options), (ropt_fileformat options ≫= parse).
  - unfold with_encoding, with_format.
    by destruct (ropt_fileencoding options), (ropt_fileformat options ≫= parse).
Qed.

(** X2 ([replace], a format that is none).  When [options.fileformat] is
    no name of a format, [replace] fails with E474 of the host.  The text
    of the buffer is untouched, but its modifiable flag is left on: the
    function of the script stops after it forced the flag and before it
    restores it. *)
Theorem replace_invalid_fileformat (bufnr : Z) (repl : list string)
    (options : ReplaceOptions) (d : denops) (b : buffer) (x : string) :
  session_ready d -> buffers (host d) !! bufnr = Some b ->
  ropt_fileformat options = Some x -> isFileFormat x = false ->
  let exit := replace bufnr repl options d in
  exit.1 = Throw E474 /\
  buffers (host exit.2) = <[bufnr := set_modifiable true b]> (buffers (host d)).
Proof.
  intros Hready Hb Hopt Hx. simpl.
  rewrite (replace_run _ _ _ _ Hready), call_run, Hopt.
  destruct (ensurePrerequisites_suffix d Hready) as (_ & Hf & _ & _).
  destruct (ensurePrerequisites_spec d) as (s & _ & _ & Hbufs & _).
  rewrite (DenopsStdBufferReplace_invalid _ _ _ _ _ b); try done;
    [|by rewrite Hbufs].
  simpl. by rewrite Hbufs.
Qed.

Lemma replaced_again repl ff fenc b :
  format_accepted ff ->
  let b' := set_lines (lines_given repl)
              (with_encoding fenc (with_format ff b)) in
  set_lines (lines_given repl) (with_encoding fenc (with_format ff b')) = b'.
Proof.
  intros _. unfold with_encoding, with_format.
  by destruct fenc, (ff ≫= parse).
Qed.

(** X3 ([replace], twice).  A second [replace] with the same arguments
    succeeds and leaves the session exactly as the first one left it. *)
Theorem replace_twice (bufnr : Z) (repl : list string)
    (options : ReplaceOptions) (d : denops) (b : buffer) :
  session_ready d ->
  buffers (host d) !! bufnr = Some b -> b_lines b <> [] ->
  format_accepted (ropt_fileformat options) ->
  let once := replace bufnr repl options d in
  once.1 = Ok tt /\
  replace bufnr repl options once.2 = once.
Proof.
  intros Hready Hb Hl Hff. simpl.
  rewrite (replace_run _ _ _ d Hready), call_run.
  destruct (ensurePrerequisites_suffix d Hready) as (_ & Hf & Hc & _).
  destruct (ensurePrerequisites_spec d) as (s & _ & _ & Hbufs & _).
  pose proof (memoized_ensurePrerequisites d) as Hm.
  set (d1 := (ensurePrerequisites d).2) in *.
  rewrite (DenopsStdBufferReplace_run _ _ _ _ _ b); try done;
    [|by rewrite Hbufs].
  simpl. split; [done|].
  set (b' := set_lines (lines_given repl)
               (with_encoding (ropt_fileencoding options)
                  (with_format (ropt_fileformat options) b))).
  set (d2 := set_host _ d1).
  assert (memoized d2 = Some (session_suffix d)) as Hm2 by done.
  assert (session_ready d2) as Hready2.
  { intros s' Hs'. rewrite Hm2 in Hs'. injection Hs' as <-. done. }
  rewrite (replace_run _ _ _ d2 Hready2), call_run.
  rewrite (ensurePrerequisites_memoized d2 _ Hm2).
  rewrite (memoized_session_suffix d2 _ Hm2). simpl.
  rewrite (DenopsStdBufferReplace_run _ _ _ _ _ b'); try done.
  - pose proof (replaced_again repl _ (ropt_fileencoding options) b Hff)
      as Hagain.
    cbv zeta in Hagain. fold b' in Hagain.
    unfold replaced_with. rewrite Hagain. subst d2. simpl. fold b'.
    change (with_buffers <[bufnr:=b']> (with_buffers <[bufnr:=b']> (host d1)))
      with (at_buffer bufnr b' (at_buffer bufnr b' (host d1))).
    by rewrite at_buffer_again.
  - apply lookup_insert_eq.
  - subst b'. simpl. by destruct repl.
Qed.

End WithUlid.

#[local] Existing Instance Sample.sample_ulid.

Lemma ready_d0 : session_ready Sample.d0.
Proof. intros s Hs. vm_compute in Hs. discriminate Hs. Qed.

(** [replace_sets_content] at buffer 1 of the sample session, which is
    not modifiable. *)
Lemma replace_sets_content_witness :
  getbufvar_modifiable 1 (host Sample.d0) = false /\
  (replace 1 ["x"; "y"; "z"] {| ropt_fileformat := Some "dos";
                                 ropt_fileencoding := None |} Sample.d0).1
  = Ok tt.
Proof.
  split; [reflexivity|].
  refine (proj1 (replace_sets_content 1 ["x"; "y"; "z"]
    {| ropt_fileformat := Some "dos"; ropt_fileencoding := None |}
    Sample.d0 (Buffer ["a"; "b"] false false unix "utf-8" "text" 2)
    ready_d0 eq_refl _ _)).
  - discriminate.
  - intros x [= <-]. reflexivity.
Defined.

(** [replace_invalid_fileformat] at buffer 1 of the sample session: the
    buffer was not modifiable, and is afterwards. *)
Lemma replace_invalid_fileformat_witness :
  getbufvar_modifiable 1 (host Sample.d0) = false /\
  let exit := replace 1 ["x"] {| ropt_fileformat := Some "foo";
                                 ropt_fileencoding := None |} Sample.d0 in
  exit.1 = Throw E474 /\
  buffers (host exit.2)
  = <[1 := Buffer ["a"; "b"] false true unix "utf-8" "text" 2]>
      (buffers (host Sample.d0)).
Proof.
  split; [reflexivity|].
  exact (replace_invalid_fileformat 1 ["x"]
    {| ropt_fileformat := Some "foo"; ropt_fileencoding := None |}
    Sample.d0 (Buffer ["a"; "b"] false false unix "utf-8" "text" 2) "foo"
    ready_d0 eq_refl eq_refl eq_refl).
Defined.

(** [replace_twice] at buffer 3 of the sample session. *)
Lemma replace_twice_witness :
  let once := replace 3 ["x"] {| ropt_fileformat := None;
                                 ropt_fileencoding := Some "latin1" |}
                Sample.d0 in
  once.1 = Ok tt /\
  replace 3 ["x"] {| ropt_fileformat := None;
                     ropt_fileencoding := Some "latin1" |} once.2 = once.
Proof.
  refine (replace_twice 3 ["x"]
    {| ropt_fileformat := None; ropt_fileencoding := Some "latin1" |}
    Sample.d0 (Buffer ["p"; "q"; "r"] false true unix "utf-8" "" 3)
    ready_d0 eq_refl _ _).
  - discriminate.
  - intros x. discriminate.
Defined.

End ReplaceTheorems.

(* ================================================================== *)
(** ** [modifiable] around a write *)
(* ================================================================== *)

Module ModifiableTheorems.
Import Eff Text FileFormat Host Script Buffer Views MoreViews.
Import HostSteps ReplaceSpec ContextSwitcher.

Lemma run_setbufline buf lnum text b v :
  text <> [] -> 1 <= lnum <= Z.of_nat (length (b_lines b)) + 1 ->
  setbufline buf lnum text (at_buffer buf b v)
  = if b_modifiable b
    then (Ok 0, at_buffer buf (set_modified true
                                 (set_lines (overwritten lnum text (b_lines b)) b)) v)
    else (Throw E21, at_buffer buf b v).
Proof.
  intros Hne Hr. unfold setbufline. destruct text as [|x text]; [done|].
  rewrite run_change_lines, bool_decide_true by done. simpl.
  by destruct (b_modifiable b).
Qed.

(** X4 ([modifiable] around a write).  [setbufline] on a buffer whose
    modifiable flag is off fails with E21 and changes nothing.  Run under
    [modifiable] the same write succeeds, whatever the flag; afterwards the
    buffer has the new lines and both flags as they were: the modified flag
    too, which the write had set. *)
Theorem modifiable_allows_write (bufnr lnum : Z) (text : list string)
    (d : denops) (b : buffer) :
  buffers (host d) !! bufnr = Some b -> text <> [] ->
  1 <= lnum <= Z.of_nat (length (b_lines b)) + 1 ->
  let write := call (setbufline bufnr lnum text) in
  let exit := modifiable bufnr write d in
  (b_modifiable b = false -> write d = (Throw E21, d)) /\
  exit.1 = Ok 0 /\
  exit.2 = set_host
             (at_buffer bufnr
                (set_lines (overwritten lnum text (b_lines b)) b) (host d)) d.
Proof.
  intros Hb Hne Hr. simpl. split.
  - intros Hmo. rewrite call_run.
    rewrite <- (at_buffer_id bufnr b (host d) Hb) at 1 2.
    rewrite run_setbufline, Hmo by done. simpl.
    rewrite (at_buffer_id bufnr b (host d) Hb). by destruct d.
  - rewrite modifiable_eq. unfold forced, restored, flags.
    rewrite call_run. simpl.
    rewrite <- (at_buffer_id bufnr b (host d) Hb) at 1 2 3 4.
    rewrite alter_at_buffer, run_getbufvar_modified, run_getbufvar_modifiable.
    rewrite run_setbufline by done. simpl.
    rewrite !alter_at_buffer. split; [done|].
    unfold set_host. simpl. by destruct b.
Qed.

(** [modifiable_allows_write] at buffer 1 of the sample session, which is
    not modifiable. *)
Lemma modifiable_allows_write_witness :
  call (setbufline 1 2 ["x"; "y"]) Sample.d0 = (Throw E21, Sample.d0) /\
  let exit := modifiable 1 (call (setbufline 1 2 ["x"; "y"])) Sample.d0 in
  exit.1 = Ok 0 /\
  buffers (host exit.2) !! 1
  = Some (Buffer ["a"; "x"; "y"] false false unix "utf-8" "text" 2).
Proof.
  destruct (modifiable_allows_write 1 2 ["x"; "y"] Sample.d0
              (Buffer ["a"; "b"] false false unix "utf-8" "text" 2)
              eq_refl) as (Hdirect & Hok & Hexit).
  - discriminate.
  - simpl. lia.
  - split; [by apply Hdirect|]. cbv zeta. split; [exact Hok|].
    cbv zeta in Hexit. rewrite Hexit. reflexivity.
Defined.

End ModifiableTheorems.

(* ================================================================== *)
(** ** [ensure] around a read *)
(* ================================================================== *)

Module EnsureRead.
Import Eff Text FileFormat Host Script Buffer Views MoreViews.
Import HostSteps ReplaceSpec ContextSwitcher EnsureSpec.








End EnsureRead.

(* ================================================================== *)
(** ** [append] at the cursor line *)
(* ================================================================== *)

Module AppendCursor.
Import Eff Text FileFormat Host Script Buffer Views MoreViews.
Import HostSteps ReplaceSpec ContextSwitcher EnsureSpec RegistrySpec.
Import ConcreteSpec.




Section WithUlid.
Context `{Ulid}.


End WithUlid.

#[local] Existing Instance Sample.sample_ulid.


End AppendCursor.

(* ================================================================== *)
(** ** [concrete]: what is stored, and for which buffer *)
(* ================================================================== *)

Module ConcreteCurrent.
Import Eff Text FileFormat Host Script Buffer Views MoreViews.
Import HostSteps ReplaceSpec ContextSwitcher RegistrySpec ConcreteSpec.

Lemma filter_idem {A} (P : A -> Prop) `{forall x, Decision (P x)} (l : list A) :
  filter P (filter P l) = filter P l.
Proof.
  induction l as [|x l IH]; [done|].
  rewrite filter_cons. destruct (decide (P x)) as [Hx|Hx]; [|done].
  by rewrite filter_cons_True, IH.
Qed.

Lemma hooked_again suffix bufnr l :
  hooked suffix bufnr (hooked suffix bufnr l) = hooked suffix bufnr l.
Proof.
  unfold hooked. rewrite filter_app, filter_idem, <- app_assoc. f_equal.
  rewrite filter_cons_False by (intros Hn; by apply Hn).
  rewrite filter_cons_False by (intros Hn; by apply Hn). done.
Qed.

Lemma hooked_elem suffix bufnr l :
  write_hook suffix bufnr ∈ hooked suffix bufnr l /\
  read_hook suffix bufnr ∈ hooked suffix bufnr l.
Proof. unfold hooked. rewrite !elem_of_app, !elem_of_cons. naive_solver. Qed.

Lemma bufnr_registry f g v :
  Host.bufnr (with_caches f (with_autocmds g v)) = Host.bufnr v.
Proof. reflexivity. Qed.

Lemma snapshot_registry f g v :
  current_snapshot (with_caches f (with_autocmds g v)) = current_snapshot v.
Proof. reflexivity. Qed.

Section WithUlid.
Context `{Ulid}.

Lemma concrete_state bufnr d :
  session_ready d ->
  let d' := (ensurePrerequisites d).2 in
  let s := session_suffix d in
  exists old,
    caches (host d') !! s = Some old /\
    (memoized d = None -> old = ∅) /\
    concrete bufnr d
    = (Ok tt,
       set_host
         (with_caches
            (insert s (<[Host.bufnr (host d) := current_snapshot (host d)]> old))
            (with_autocmds (hooked s bufnr) (host d'))) d').
Proof.
  intros Hready. simpl.
  destruct (concrete_run bufnr d Hready) as (old & Hold & Hrun).
  destruct (ensurePrerequisites_spec d) as (s & _ & _ & Hbufs & Hw & Hc & _).
  exists old. split_and!; [done | |].
  - intros Hnone. rewrite (ensurePrerequisites_first d Hnone) in Hold.
    unfold session_suffix in Hold. rewrite Hnone in Hold. simpl in Hold.
    rewrite lookup_insert_eq in Hold. by injection Hold.
  - rewrite Hrun. unfold stored, current_snapshot, get_filetype, getline_all,
      Host.bufnr, find_window. simpl. by rewrite Hbufs, Hw, Hc.
Qed.

(** X7 ([concrete], what is stored).  In a ready session [concrete]
    succeeds and defines the two hooks for the buffer it is given; the
    snapshot it stores, however, is the file type and the lines of the
    current buffer, under the number of the current buffer.  In a fresh
    session that is the only snapshot: when the given buffer is not the
    current one, none is stored for it. *)
Theorem concrete_snapshots_current (bufnr : Z) (d : denops) :
  session_ready d ->
  let exit := concrete bufnr d in
  let s := session_suffix d in
  let cur := Host.bufnr (host d) in
  exit.1 = Ok tt /\
  write_hook s bufnr ∈ autocmds (host exit.2) /\
  read_hook s bufnr ∈ autocmds (host exit.2) /\
  exists cache,
    caches (host exit.2) !! s = Some cache /\
    cache !! cur = Some (current_snapshot (host d)) /\
    (memoized d = None -> forall i, i <> cur -> cache !! i = None).
Proof.
  intros Hready. simpl.
  destruct (concrete_state bufnr d Hready) as (old & Hold & Hfresh & ->).
  simpl. split_and!; [done | apply hooked_elem | apply hooked_elem |].
  eexists. split_and!.
  - apply lookup_insert_eq.
  - apply lookup_insert_eq.
  - intros Hnone i Hi. rewrite (Hfresh Hnone).
    by rewrite lookup_insert_ne.
Qed.

(** X8 ([concrete], twice).  A second [concrete] of the same buffer, with
    nothing done in between, leaves the session exactly as the first one
    left it: the two hooks are there once, and the snapshot is the same. *)
Theorem concrete_twice_same (bufnr : Z) (d : denops) :
  session_ready d ->
  let once := concrete bufnr d in
  once.1 = Ok tt /\ concrete bufnr once.2 = once.
Proof.
  intros Hready. simpl.
  destruct (concrete_state bufnr d Hready) as (old & Hold & _ & Hrun).
  destruct (ensurePrerequisites_spec d) as (s0 & _ & _ & Hbufs & Hw & Hc & _).
  destruct (ensurePrerequisites_suffix d Hready) as (_ & Hf & _ & _).
  pose proof (memoized_ensurePrerequisites d) as Hm.
  set (d1 := (ensurePrerequisites d).2) in *.
  set (s := session_suffix d) in *.
  rewrite Hrun. simpl. split; [done|].
  set (d2 := set_host _ d1).
  assert (memoized d2 = Some s) as Hm2 by done.
  assert (session_ready d2) as Hready2.
  { intros s' Hs'. rewrite Hm2 in Hs'. injection Hs' as <-.
    split; [done|]. subst d2. simpl. rewrite lookup_insert_eq. by eexists. }
  destruct (concrete_state bufnr d2 Hready2) as (old2 & Hold2 & _ & Hrun2).
  rewrite (ensurePrerequisites_memoized d2 _ Hm2) in Hold2, Hrun2.
  rewrite (memoized_session_suffix d2 _ Hm2) in Hold2, Hrun2.
  simpl in Hold2, Hrun2. rewrite lookup_insert_eq in Hold2.
  injection Hold2 as <-. rewrite Hrun2. f_equal.
  subst d2. unfold set_host. simpl. f_equal.
  assert (Host.bufnr (host d1) = Host.bufnr (host d)) as Hcur.
  { unfold Host.bufnr, find_window. by rewrite Hw, Hc. }
  assert (current_snapshot (host d1) = current_snapshot (host d)) as Hsnap.
  { unfold current_snapshot, get_filetype, getline_all.
    by rewrite Hcur, Hbufs. }
  rewrite bufnr_registry, snapshot_registry, Hcur, Hsnap.
  unfold with_caches, with_autocmds. simpl.
  by rewrite hooked_again, !insert_insert_eq.
Qed.

End WithUlid.

#[local] Existing Instance Sample.sample_ulid.

(** [concrete_snapshots_current] for buffer 3 of the sample session, while
    buffer 1 is the current one: the stored snapshot is that of buffer 1. *)
Lemma concrete_snapshots_current_witness :
  Host.bufnr (host Sample.d0) = 1 /\
  exists cache,
    caches (host (concrete 3 Sample.d0).2) !! "0" = Some cache /\
    cache !! 1 = Some (Snapshot "text" ["a"; "b"]) /\
    cache !! 3 = None.
Proof.
  split; [reflexivity|].
  destruct (concrete_snapshots_current 3 Sample.d0 ReplaceTheorems.ready_d0)
    as (_ & _ & _ & cache & Hc & Hcur & Hfresh).
  exists cache. split_and!; [exact Hc | exact Hcur |].
  apply Hfresh; [reflexivity|]. by vm_compute.
Defined.

(** [concrete_twice_same] at buffer 1 of the sample session. *)
Lemma concrete_twice_same_witness :
  concrete 1 (concrete 1 Sample.d0).2 = concrete 1 Sample.d0.
Proof.
  exact (proj2 (concrete_twice_same 1 Sample.d0 ReplaceTheorems.ready_d0)).
Defined.

End ConcreteCurrent.

(* ================================================================== *)
(** ** Frames: what the functions of the script never touch *)
(* ================================================================== *)

Module Frames.
Import Eff Text FileFormat Host Script Buffer Views MoreViews.
Import HostSteps ReplaceSpec.

Section Rules.
Context {S T : Type} (view : S -> T).

Lemma leaves_ret {A} (a : A) : leaves view (mret a).
Proof. done. Qed.

Lemma leaves_gets {A} (f : S -> A) : leaves view (gets f).
Proof. done. Qed.

Lemma leaves_throw {A} e : leaves view (throw e : Eff S A).
Proof. done. Qed.

Lemma leaves_modify (f : S -> S) :
  (forall s, view (f s) = view s) -> leaves view (modify f).
Proof. intros Hf s. apply Hf. Qed.

Lemma leaves_bind {A B} (m : Eff S A) (f : A -> Eff S B) :
  leaves view m -> (forall a, leaves view (f a)) -> leaves view (m ≫= f).
Proof.
  intros Hm Hf s. rewrite bind_run. specialize (Hm s).
  destruct (m s) as [[a|e] s']; simpl in *; [|done].
  by rewrite Hf.
Qed.

Lemma leaves_try_finally {A} (body : Eff S A) (fin : Eff S unit) :
  leaves view body -> leaves view fin -> leaves view (try_finally body fin).
Proof.
  intros Hb Hf s. unfold try_finally. specialize (Hb s).
  destruct (body s) as [r s1]. specialize (Hf s1).
  destruct (fin s1) as [[?|?] s2]; simpl in *; congruence.
Qed.

End Rules.

Lemma invariant_bind {S A B} (P : S -> Prop) (m : Eff S A) (f : A -> Eff S B) :
  invariant P m -> (forall a, invariant P (f a)) -> invariant P (m ≫= f).
Proof.
  intros Hm Hf s Hs. rewrite bind_run. specialize (Hm s Hs).
  destruct (m s) as [[a|e] s']; simpl in *; [|done].
  by apply Hf.
Qed.

Lemma invariant_try_finally {S A} (P : S -> Prop)
    (body : Eff S A) (fin : Eff S unit) :
  invariant P body -> invariant P fin -> invariant P (try_finally body fin).
Proof.
  intros Hb Hf s Hs. unfold try_finally. specialize (Hb s Hs).
  destruct (body s) as [r s1]. specialize (Hf s1 Hb).
  by destruct (fin s1) as [[?|?] s2].
Qed.

Lemma leaves_invariant {S T A} (view : S -> T) (P : T -> Prop) (m : Eff S A) :
  leaves view m -> invariant (fun s => P (view s)) m.
Proof. intros Hm s Hs. by rewrite Hm. Qed.

(** *** Views that ignore a buffer *)

#[export] Instance registry_ignores buf : Ignores buf registry.
Proof. done. Qed.

#[export] Instance focus_ignores buf : Ignores buf focus.
Proof. done. Qed.

#[export] Instance other_buffers_ignores buf : Ignores buf (other_buffers buf).
Proof.
  intros f v. unfold other_buffers. simpl. apply map_eq. intros i.
  destruct (decide (i = buf)) as [->|Hi].
  - by rewrite !lookup_delete_eq.
  - by rewrite !lookup_delete_ne, lookup_alter_ne.
Qed.

Section Builtins.
Context {T : Type} (buf : Z) (view : vim -> T) `{!Ignores buf view}.

Lemma ignores_insert b v :
  is_Some (buffers v !! buf) -> view (with_buffers (insert buf b) v) = view v.
Proof.
  intros [b0 Hb].
  rewrite <- (@ignores _ buf view _ (fun _ => b) v). f_equal.
  unfold with_buffers. f_equal. apply map_eq. intros i.
  destruct (decide (i = buf)) as [->|Hi].
  - by rewrite lookup_insert_eq, lookup_alter_eq, Hb.
  - by rewrite lookup_insert_ne, lookup_alter_ne.
Qed.

Lemma leaves_setbufvar_modified x : leaves view (setbufvar_modified buf x).
Proof. apply leaves_modify. intros v. apply ignores. Qed.

Lemma leaves_setbufvar_modifiable x : leaves view (setbufvar_modifiable buf x).
Proof. apply leaves_modify. intros v. apply ignores. Qed.

Lemma leaves_setbufvar_fileencoding x :
  leaves view (setbufvar_fileencoding buf x).
Proof. apply leaves_modify. intros v. apply ignores. Qed.

Lemma leaves_setbufvar_fileformat x : leaves view (setbufvar_fileformat buf x).
Proof.
  unfold setbufvar_fileformat. destruct (parse x); [|apply leaves_throw].
  apply leaves_modify. intros v. apply ignores.
Qed.

Lemma leaves_change_lines ok f : leaves view (change_lines buf ok f).
Proof.
  intros v. unfold change_lines.
  destruct (buffers v !! buf) as [b|] eqn:Hb; [|done].
  destruct (ok (b_lines b)); simpl; [|done].
  destruct (b_modifiable b); simpl; [|done].
  apply ignores_insert. by exists b.
Qed.

Lemma leaves_appendbufline lnum text : leaves view (appendbufline buf lnum text).
Proof.
  unfold appendbufline. destruct text; [apply leaves_ret|].
  apply leaves_change_lines.
Qed.

Lemma leaves_setbufline lnum text : leaves view (setbufline buf lnum text).
Proof.
  unfold setbufline. destruct text; [apply leaves_ret|].
  apply leaves_change_lines.
Qed.

Lemma leaves_deletebufline_to_end first :
  leaves view (deletebufline_to_end buf first).
Proof. apply leaves_change_lines. Qed.

Lemma leaves_defined {A} suffix (body : Eff vim A) :
  leaves view body -> leaves view (defined suffix body).
Proof. intros Hb v. unfold defined. case_bool_decide; [apply Hb | done]. Qed.

Lemma leaves_DenopsStdBufferAppend suffix lnum repl :
  leaves view (DenopsStdBufferAppend suffix buf lnum repl).
Proof.
  apply leaves_defined.
  repeat (apply leaves_bind; [|intros ?]);
    auto using leaves_gets, leaves_setbufvar_modified,
      leaves_setbufvar_modifiable, leaves_appendbufline.
Qed.

Lemma leaves_DenopsStdBufferReplace suffix repl ff fenc :
  leaves view (DenopsStdBufferReplace suffix buf repl ff fenc).
Proof.
  apply leaves_defined.
  repeat (apply leaves_bind; [|intros ?]);
    try (destruct ff); try (destruct fenc);
    auto using leaves_gets, leaves_ret, leaves_setbufvar_modified,
      leaves_setbufvar_modifiable, leaves_setbufvar_fileformat,
      leaves_setbufvar_fileencoding, leaves_setbufline,
      leaves_deletebufline_to_end.
Qed.

End Builtins.

End Frames.

(* ================================================================== *)
(** ** What every call keeps *)
(* ================================================================== *)

Module Invariants.
Import Eff Text FileFormat FileEncoding Host Script Buffer Views MoreViews.
Import HostSteps ReplaceSpec RegistrySpec Frames.

Lemma leaves_call {T A} (view : vim -> T) (m : Eff vim A) :
  leaves view m -> leaves (fun d => view (host d)) (call m).
Proof. intros Hm d. rewrite call_run. simpl. apply Hm. Qed.

Lemma leaves_cmd_buffer n : leaves registry (cmd_buffer n).
Proof. intros v. unfold cmd_buffer. by destruct (buffers v !! n). Qed.

Lemma leaves_win_gotoid id : leaves registry (win_gotoid id).
Proof. intros v. unfold win_gotoid. by destruct (find_window id v). Qed.

Lemma leaves_buffers_cmd_buffer n : leaves buffers (cmd_buffer n).
Proof. intros v. unfold cmd_buffer. by destruct (buffers v !! n). Qed.

Lemma leaves_buffers_win_gotoid id : leaves buffers (win_gotoid id).
Proof. intros v. unfold win_gotoid. by destruct (find_window id v). Qed.

(** A computation of the host that keeps what was sourced keeps the
    session ready. *)
Lemma ready_call {A} (m : Eff vim A) :
  (forall s, invariant (sourced s) m) -> invariant session_ready (call m).
Proof.
  intros Hm d Hready s Hs. rewrite call_run in Hs |- *. simpl in *.
  apply (Hm s). by apply Hready.
Qed.

Lemma sourced_registry {A} (m : Eff vim A) s :
  leaves registry m -> invariant (sourced s) m.
Proof.
  intros Hm v [Hf Hc]. specialize (Hm v). unfold registry in Hm.
  injection Hm as Hf' Hc' _. unfold sourced. by rewrite Hf', Hc'.
Qed.

Lemma ready_call_registry {A} (m : Eff vim A) :
  leaves registry m -> invariant session_ready (call m).
Proof. intros Hm. apply ready_call. intros s. by apply sourced_registry. Qed.

Lemma sourced_autocmds f s v : sourced s v -> sourced s (with_autocmds f v).
Proof. done. Qed.

Lemma sourced_DenopsStdBufferConcreteStore suffix s :
  invariant (sourced s) (DenopsStdBufferConcreteStore suffix).
Proof.
  intros v [Hf Hc]. unfold DenopsStdBufferConcreteStore, defined,
    concrete_cache.
  case_bool_decide; [|done]. rewrite bind_run.
  destruct (caches v !! suffix) as [cache|] eqn:E; [|done].
  simpl. split; [done|]. simpl.
  destruct (decide (suffix = s)) as [->|Hne].
  - rewrite lookup_insert_eq. by eexists.
  - by rewrite lookup_insert_ne.
Qed.

Lemma ready_ensure {T} bufnr (executor : Eff denops T) :
  invariant session_ready executor ->
  invariant session_ready (ensure bufnr executor).
Proof.
  intros Hex. unfold ensure.
  apply invariant_bind; [apply ready_call_registry, leaves_gets|].
  intros [[bufnrCur winidCur] winidNext].
  case_bool_decide; [done|]. case_bool_decide.
  - apply invariant_bind; [apply ready_call_registry, leaves_cmd_buffer|].
    intros _. apply invariant_try_finally; [done|].
    apply ready_call_registry, leaves_cmd_buffer.
  - apply invariant_bind; [apply ready_call_registry, leaves_win_gotoid|].
    intros _. apply invariant_try_finally; [done|].
    apply invariant_bind; [apply ready_call_registry, leaves_win_gotoid|].
    by intros _ d.
Qed.

Lemma ready_modifiable {T} bufnr (executor : Eff denops T) :
  invariant session_ready executor ->
  invariant session_ready (modifiable bufnr executor).
Proof.
  intros Hex. unfold modifiable.
  apply invariant_bind; [apply ready_call_registry, leaves_gets|].
  intros [modified modifiable].
  apply invariant_bind;
    [apply ready_call_registry, leaves_setbufvar_modifiable, _|].
  intros _. apply invariant_try_finally; [done|].
  apply ready_call_registry, leaves_bind;
    [apply leaves_setbufvar_modified, _|].
  intros _. apply leaves_setbufvar_modifiable, _.
Qed.

Section WithDecoder.
Context `{TextDecoder}.

Lemma decode_state bufnr data options d :
  (decode bufnr data options d).2 = d.
Proof.
  unfold decode. rewrite bind_run, call_run. unfold gets. simpl.
  assert (set_host (host d) d = d) as -> by by destruct d.
  rewrite bind_run.
  destruct (decode_text _ _ _) as [[enc text]|e]; [|done].
  destruct (maybe_fileformat options) as [f|]; [done|].
  destruct (findFileFormat _ _) as [f|]; [done|].
  by destruct (getbufvar_fileformat bufnr (host d)).
Qed.

End WithDecoder.

Section WithUlid.
Context `{Ulid}.

Lemma ready_append bufnr repl options :
  invariant session_ready (append bufnr repl options).
Proof.
  unfold append.
  apply invariant_bind; [intros d; apply ready_ensurePrerequisites|].
  intros suffix. apply invariant_bind.
  - destruct (opt_lnum options); [by intros d|].
    apply ready_ensure, ready_call_registry, leaves_gets.
  - intros lnum. apply ready_call_registry, leaves_DenopsStdBufferAppend, _.
Qed.

Lemma ready_replace bufnr repl options :
  invariant session_ready (replace bufnr repl options).
Proof.
  unfold replace.
  apply invariant_bind; [intros d; apply ready_ensurePrerequisites|].
  intros suffix. apply ready_call_registry, leaves_DenopsStdBufferReplace, _.
Qed.

Lemma ready_concrete bufnr :
  invariant session_ready (concrete bufnr).
Proof.
  unfold concrete.
  apply invariant_bind; [intros d; apply ready_ensurePrerequisites|].
  intros suffix. apply ready_call. intros s. cbv zeta.
  repeat (apply invariant_bind; [|intros _]);
    try apply sourced_DenopsStdBufferConcreteStore;
    intros v Hv; by apply sourced_autocmds.
Qed.

(** X9 (the session stays ready).  A session is ready when the identifier
    it has memoized, if any, is one whose functions are defined in the host
    and whose cache exists.  Every function of the module keeps a ready
    session ready, however it ends: [append], [replace], [concrete] and
    [decode] for all arguments; [ensure] and [modifiable] around every
    action that does. *)
Theorem session_stays_ready `{TextDecoder} :
  (forall bufnr repl options,
     invariant session_ready (append bufnr repl options)) /\
  (forall bufnr repl options,
     invariant session_ready (replace bufnr repl options)) /\
  (forall bufnr, invariant session_ready (concrete bufnr)) /\
  (forall bufnr data options,
     invariant session_ready (decode bufnr data options)) /\
  (forall T bufnr (executor : Eff denops T),
     invariant session_ready executor ->
     invariant session_ready (ensure bufnr executor)) /\
  (forall T bufnr (executor : Eff denops T),
     invariant session_ready executor ->
     invariant session_ready (modifiable bufnr executor)).
Proof.
  split_and!.
  - apply ready_append.
  - apply ready_replace.
  - apply ready_concrete.
  - intros bufnr data options d Hd. by rewrite decode_state.
  - intros T. apply ready_ensure.
  - intros T. apply ready_modifiable.
Qed.

End WithUlid.

End Invariants.

(* ================================================================== *)
(** ** The end of a session: the teardown autocommands *)
(* ================================================================== *)

Module Teardown.
Import Eff Text FileFormat Host Script Buffer Views MoreViews.
Import HostSteps ReplaceSpec Frames.

Lemma foldl_invariant {A S} (step : S -> A -> S) (P : S -> Prop) l s :
  P s -> (forall s y, P s -> P (step s y)) -> P (foldl step s l).
Proof.
  intros Hs Hstep. revert s Hs.
  induction l as [|y l IH]; intros s Hs; [done|].
  simpl. apply IH. by apply Hstep.
Qed.

(** What one step establishes and every step keeps holds at the end. *)
Lemma foldl_establish {A S} (step : S -> A -> S) (P : S -> Prop) l x s :
  x ∈ l -> (forall s, P (step s x)) -> (forall s y, P s -> P (step s y)) ->
  P (foldl step s l).
Proof.
  intros Hx Hest Hstep. revert s.
  induction l as [|y l IH]; intros s; [by apply elem_of_nil in Hx|].
  simpl. apply elem_of_cons in Hx as [<-|Hx].
  - apply foldl_invariant; [apply Hest | done].
  - by apply IH.
Qed.

Lemma leaves_let_filetype x : leaves registry (let_filetype x).
Proof. by intros v. Qed.

Lemma leaves_concrete_cache suffix : leaves registry (concrete_cache suffix).
Proof. intros v. unfold concrete_cache. by destruct (caches v !! suffix). Qed.

Lemma leaves_DenopsStdBufferConcreteRestore suffix :
  leaves registry (DenopsStdBufferConcreteRestore suffix).
Proof.
  apply leaves_defined.
  apply leaves_bind; [apply leaves_concrete_cache|]. intros cache.
  apply leaves_bind; [apply leaves_gets|]. intros cur.
  destruct (cache !! cur) as [c|]; [|apply leaves_ret].
  apply leaves_bind; [apply leaves_DenopsStdBufferReplace, _|].
  intros _. apply leaves_let_filetype.
Qed.

Lemma store_state suffix v :
  let v' := (DenopsStdBufferConcreteStore suffix v).2 in
  functions v' = functions v /\ autocmds v' = autocmds v /\
  forall s, caches v !! s = None -> caches v' !! s = None.
Proof.
  unfold DenopsStdBufferConcreteStore, defined, concrete_cache. simpl.
  case_bool_decide; [|done]. rewrite bind_run.
  destruct (caches v !! suffix) as [cache|] eqn:E; [|done].
  simpl. split_and!; [done | done |].
  intros s Hs. rewrite lookup_insert_ne; [done|]. congruence.
Qed.

(** No command of an autocommand defines or removes a function, adds an
    autocommand, or brings back a cache that is gone. *)
Lemma run_command_keeps c v :
  let v' := (run_command c v).2 in
  functions v' = functions v /\
  (forall a, a ∈ autocmds v' -> a ∈ autocmds v) /\
  (forall s, caches v !! s = None -> caches v' !! s = None).
Proof.
  destruct c as [suffix|suffix|suffix|g]; simpl.
  - destruct (store_state suffix v) as (Hf & Ha & Hc). simpl in *.
    rewrite Hf, Ha. auto.
  - pose proof (leaves_DenopsStdBufferConcreteRestore suffix v) as Hr.
    unfold registry in Hr. injection Hr as -> -> ->. auto.
  - split_and!; [done | done |]. intros s Hs.
    destruct (decide (suffix = s)) as [->|Hne].
    + apply lookup_delete_eq.
    + by rewrite lookup_delete_ne.
  - split_and!; [done | | done].
    intros a Ha. by apply list_elem_of_filter in Ha as [_ ?].
Qed.

Lemma teardown_elem suffix event c :
  event ∈ ["DenopsStopped"; "DenopsClosed"] ->
  c ∈ [UnletConcreteCache suffix; ClearAugroup (group_reload suffix);
       ClearAugroup (group_concrete suffix); ClearAugroup (group_main suffix)] ->
  Autocmd (group_main suffix) "User" (PatName event) c false true
    ∈ teardown suffix.
Proof.
  intros He Hc. rewrite !elem_of_cons, elem_of_nil in He.
  rewrite !elem_of_cons, elem_of_nil in Hc.
  unfold teardown. cbn. rewrite !elem_of_cons.
  destruct He as [->|[->|[]]]; destruct Hc as [->|[->|[->|[->|[]]]]];
    auto 20.
Qed.

Lemma teardown_runs suffix event c v :
  event ∈ ["DenopsStopped"; "DenopsClosed"] ->
  c ∈ [UnletConcreteCache suffix; ClearAugroup (group_reload suffix);
       ClearAugroup (group_concrete suffix); ClearAugroup (group_main suffix)] ->
  (forall a, a ∈ teardown suffix -> a ∈ autocmds v) ->
  Autocmd (group_main suffix) "User" (PatName event) c false true
    ∈ List.filter (au_matches "User" (PatName event)) (autocmds v).
Proof.
  intros He Hc Hau. apply list_elem_of_In, List.filter_In. split.
  - apply list_elem_of_In, Hau. by apply teardown_elem.
  - unfold au_matches. simpl. by rewrite !bool_decide_true.
Qed.

Lemma cleared_group g event v suffix :
  event ∈ ["DenopsStopped"; "DenopsClosed"] ->
  ClearAugroup g
    ∈ [UnletConcreteCache suffix; ClearAugroup (group_reload suffix);
       ClearAugroup (group_concrete suffix); ClearAugroup (group_main suffix)] ->
  (forall a, a ∈ teardown suffix -> a ∈ autocmds v) ->
  forall a, a ∈ autocmds (doautocmd "User" (PatName event) v) ->
    au_group a <> g.
Proof.
  intros He Hc Hau. unfold doautocmd.
  apply (foldl_establish _ (fun v => forall a, a ∈ autocmds v -> au_group a <> g)
           _ _ _ (teardown_runs suffix event _ v He Hc Hau)).
  - intros s a Ha. simpl in Ha. by apply list_elem_of_filter in Ha as [? _].
  - intros s y Hs a Ha. apply Hs.
    by apply (run_command_keeps (au_cmd y) s).
Qed.

(** X10 (the end of a session).  The script registers its teardown for
    the events [User DenopsStopped] and [User DenopsClosed].  When one of
    them fires in a host that holds these autocommands, whatever else is
    registered for the event: the cache of the session is gone, and no
    autocommand is left in any of the three groups of the session, the
    hooks [concrete] defined included; no autocommand is added; the
    functions stay defined. *)
Theorem teardown_clears_session (suffix event : string) (v : vim) :
  event ∈ ["DenopsStopped"; "DenopsClosed"] ->
  (forall a, a ∈ teardown suffix -> a ∈ autocmds v) ->
  let v' := doautocmd "User" (PatName event) v in
  caches v' !! suffix = None /\
  (forall a, a ∈ autocmds v' ->
     a ∈ autocmds v /\ au_group a <> group_main suffix /\
     au_group a <> group_reload suffix /\
     au_group a <> group_concrete suffix) /\
  functions v' = functions v.
Proof.
  intros He Hau. simpl. split_and!.
  - unfold doautocmd.
    apply (foldl_establish _ (fun v => caches v !! suffix = None) _ _ _
             (teardown_runs suffix event (UnletConcreteCache suffix) v He
                ltac:(left) Hau)).
    + intros s. simpl. apply lookup_delete_eq.
    + intros s y Hs. by apply (run_command_keeps (au_cmd y) s).
  - intros a Ha. split_and!.
    + revert a Ha. unfold doautocmd.
      apply (foldl_invariant _
               (fun v' => forall a, a ∈ autocmds v' -> a ∈ autocmds v)).
      * intros a Ha. simpl in Ha.
        by apply list_elem_of_In, List.filter_In in Ha as [?%list_elem_of_In _].
      * intros s y Hs a Ha. apply Hs.
        by apply (run_command_keeps (au_cmd y) s).
    + apply (cleared_group _ event v suffix He); [|done|done].
      rewrite !elem_of_cons. auto.
    + apply (cleared_group _ event v suffix He); [|done|done].
      rewrite !elem_of_cons. auto.
    + apply (cleared_group _ event v suffix He); [|done|done].
      rewrite !elem_of_cons. auto.
  - unfold doautocmd.
    apply (foldl_invariant _ (fun v' => functions v' = functions v)); [done|].
    intros s y <-. by apply (run_command_keeps (au_cmd y) s).
Qed.

#[local] Existing Instance Sample.sample_ulid.

(** [teardown_clears_session] in the sample session after [concrete] of
    buffer 1: ten autocommands before, none after. *)
Lemma teardown_clears_session_witness :
  let v := host (concrete 1 Sample.d0).2 in
  let v' := doautocmd "User" (PatName "DenopsStopped") v in
  length (autocmds v) = 10%nat /\
  is_Some (caches v !! "0") /\
  caches v' !! "0" = None /\
  functions v' = functions v.
Proof.
  cbv zeta. split; [reflexivity|]. split; [vm_compute; by eexists|].
  destruct (teardown_clears_session "0" "DenopsStopped"
              (host (concrete 1 Sample.d0).2)) as (Hc & _ & Hf).
  - rewrite !elem_of_cons. auto.
  - intros a Ha. unfold teardown in Ha. cbn in Ha.
    let l := eval vm_compute in (autocmds (host (concrete 1 Sample.d0).2)) in
    change (a ∈ l).
    rewrite !elem_of_cons, elem_of_nil in Ha. rewrite !elem_of_cons.
    repeat destruct Ha as [->|Ha]; auto 20. destruct Ha.
  - by split.
Defined.

End Teardown.

(* ================================================================== *)
(** ** What [replace] and [append] never touch *)
(* ================================================================== *)

Module FrameTheorems.
Import Eff Text FileFormat Host Script Buffer Views MoreViews.
Import HostSteps ReplaceSpec RegistrySpec Frames Invariants.

#[export] Instance pair_ignores {T U} buf (f : vim -> T) (g : vim -> U)
  `{!Ignores buf f, !Ignores buf g} : Ignores buf (fun v => (f v, g v)).
Proof. intros h v. by rewrite !ignores. Qed.

Section WithUlid.
Context `{Ulid}.

Lemma leaves_ensurePrerequisites buf :
  leaves (fun d => (other_buffers buf (host d), focus (host d)))
    ensurePrerequisites.
Proof.
  intros d.
  destruct (ensurePrerequisites_spec d) as (s & _ & _ & Hb & Hw & Hc & _).
  unfold other_buffers, focus. by rewrite Hb, Hw, Hc.
Qed.

(** X11 (frame of [replace] and [append]).  However it ends, and whatever
    the state of the session, [replace] changes no buffer other than the
    given one, no window and not the current window; the same holds for
    [append] with a line number. *)
Theorem replace_append_frame (bufnr : Z) (repl : list string) :
  (forall options,
     leaves (fun d => (other_buffers bufnr (host d), focus (host d)))
       (replace bufnr repl options)) /\
  (forall lnum,
     leaves (fun d => (other_buffers bufnr (host d), focus (host d)))
       (append bufnr repl {| opt_lnum := Some lnum |})).
Proof.
  split.
  - intros options. unfold replace.
    apply leaves_bind; [apply leaves_ensurePrerequisites|]. intros suffix.
    apply (leaves_call (fun v => (other_buffers bufnr v, focus v))).
    apply leaves_DenopsStdBufferReplace, _.
  - intros lnum. unfold append.
    apply leaves_bind; [apply leaves_ensurePrerequisites|]. intros suffix.
    apply leaves_bind; [apply leaves_ret|]. intros lnum'.
    apply (leaves_call (fun v => (other_buffers bufnr v, focus v))).
    apply leaves_DenopsStdBufferAppend, _.
Qed.

End WithUlid.

End FrameTheorems.

(* ================================================================== *)
(** ** [decode]: the encoding option *)
(* ================================================================== *)

Module DecodeEdges.
Import Eff Text FileFormat FileEncoding Host Script Buffer Views MoreViews.
Import HostSteps ReplaceSpec Invariants.

Section WithDecoder.
Context `{TextDecoder}.

Lemma decode_text_empty_option data fileencodings ff :
  decode_text data {| opt_fileformat := ff; opt_fileencoding := Some EmptyString |}
    fileencodings
  = decode_text data {| opt_fileformat := ff; opt_fileencoding := None |}
      fileencodings.
Proof. reflexivity. Qed.

(** X12 ([decode], the encoding option).  [decode] never changes the
    session, however it ends.  An empty [options.fileencoding] counts as
    none: the result is the one without the option.  An encoding that is
    given and that the platform does not know makes the call fail with a
    RangeError, whatever the buffer and the host's settings; one the
    platform knows is the encoding of the result whenever the call
    succeeds, the host's ['fileencodings'] not being tried. *)
Theorem decode_encoding_option (bufnr : Z) (data : list Byte.byte)
    (ff : option string) (d : denops) :
  (forall options, (decode bufnr data options d).2 = d) /\
  decode bufnr data
    {| opt_fileformat := ff; opt_fileencoding := Some EmptyString |} d
  = decode bufnr data {| opt_fileformat := ff; opt_fileencoding := None |} d /\
  (forall enc,
     enc <> EmptyString -> supported enc = false ->
     (decode bufnr data {| opt_fileformat := ff; opt_fileencoding := Some enc |}
        d).1
     = Throw (RangeError "The encoding label provided is invalid")) /\
  (forall enc r,
     enc <> EmptyString ->
     (decode bufnr data {| opt_fileformat := ff; opt_fileencoding := Some enc |}
        d).1 = Ok r ->
     supported enc = true /\ fileencoding r = enc).
Proof.
  split_and!.
  - intros options. apply decode_state.
  - unfold decode. rewrite !bind_run.
    destruct (call _ d) as [[[[f ffs] fencs]|e] d1]; [|done].
    rewrite !bind_run. by rewrite decode_text_empty_option.
  - intros enc Hne Hsup. unfold decode. rewrite bind_run, call_run.
    unfold gets. simpl. rewrite bind_run. unfold decode_text. simpl.
    destruct enc as [|c enc]; [done|]. by rewrite Hsup.
  - intros enc r Hne. unfold decode. rewrite bind_run, call_run.
    unfold gets. simpl. rewrite bind_run. unfold decode_text. simpl.
    destruct enc as [|c enc]; [done|].
    destruct (supported (String c enc)); [|done].
    unfold maybe_fileformat. simpl.
    destruct (ff ≫= parse) as [f|].
    + intros [= <-]. done.
    + destruct (findFileFormat _ _) as [f|].
      * intros [= <-]. done.
      * destruct (getbufvar_fileformat bufnr (host d)); [|done].
        intros [= <-]. done.
Qed.

End WithDecoder.

End DecodeEdges.

(* ================================================================== *)
(** ** [load]: the set of loaded objects *)
(* ================================================================== *)

Module LoadSet.
Import Eff Load LoadSpec.
Import HostSteps.

Section WithPlatform.
Context {W : Type} `{Platform W}.

Lemma has_app url (l l' : list URL) :
  has url (l ++ l') = has url l || has url l'.
Proof. unfold has. apply existsb_app. Qed.

Lemma has_elem url (l : list URL) :
  has url l = true <-> url_object url ∈ url_object <$> l.
Proof.
  unfold has. rewrite existsb_exists, list_elem_of_fmap. split.
  - intros (u & Hin & Heq%Nat.eqb_eq). exists u.
    by rewrite list_elem_of_In.
  - intros (u & Heq & Hin). exists u. rewrite <- list_elem_of_In.
    split; [done|]. by apply Nat.eqb_eq.
Qed.

Lemma loaded_add url (p : process W) :
  loaded (add url p)
  = if has url (loaded p) then loaded p else loaded p ++ [url].
Proof. reflexivity. Qed.

(** The three ways a call can go. *)
Lemma load_cases url options (p : process W) :
  let exit := load url options p in
  (exit = (Ok false, p) /\ has url (loaded p) = true /\
   not_forced options = true) \/
  (exists w, exit = (Ok true, add url (set_outside w p))) \/
  (exists e w, exit = (Throw e, set_outside w p)).
Proof.
  simpl. destruct (has url (loaded p)) eqn:Hhas;
    destruct (not_forced options) eqn:Hforce.
  - left. by rewrite load_cached.
  - right. rewrite load_runs by by right.
    destruct (ensureLocalFile url (outside p)) as [[path|e] w]; [|eauto].
    destruct (source path w) as [[?|e] w']; eauto.
  - right. rewrite load_runs by by left.
    destruct (ensureLocalFile url (outside p)) as [[path|e] w]; [|eauto].
    destruct (source path w) as [[?|e] w']; eauto.
  - right. rewrite load_runs by by left.
    destruct (ensureLocalFile url (outside p)) as [[path|e] w]; [|eauto].
    destruct (source path w) as [[?|e] w']; eauto.
Qed.

(** X13 ([load], the outcomes).  [load] answers false only for an object
    that is in the set, without [force], and then nothing at all happened,
    outside the module included.  When it answers true the object is in
    the set afterwards.  When it fails, fetching or sourcing, the set is
    what it was: an object that was not in it is not skipped by the next
    call. *)
Theorem load_outcomes (url : URL) (options : LoadOptions) (p : process W) :
  let exit := load url options p in
  (exit.1 = Ok false ->
     exit.2 = p /\ has url (loaded p) = true /\ not_forced options = true) /\
  (exit.1 = Ok true -> has url (loaded exit.2) = true) /\
  (forall e, exit.1 = Throw e -> loaded exit.2 = loaded p).
Proof.
  simpl.
  destruct (load_cases url options p)
    as [(-> & Hhas & Hforce) | [(w & ->) | (e & w & ->)]]; simpl.
  - split_and!; [done | discriminate | discriminate].
  - split_and!; [discriminate | | discriminate].
    intros _. apply (has_add url (set_outside w p)).
  - split_and!; [discriminate | discriminate | done].
Qed.

(** X14 ([load], the set).  The set of loaded objects only grows, by the
    given object at most, and holds no object twice: a forced load of an
    object that is in the set leaves the set as it is. *)
Theorem load_set_grows (url : URL) (options : LoadOptions) (p : process W) :
  let exit := load url options p in
  (loaded exit.2 = loaded p \/ loaded exit.2 = loaded p ++ [url]) /\
  (has url (loaded p) = true -> loaded exit.2 = loaded p) /\
  (forall u, has u (loaded p) = true -> has u (loaded exit.2) = true) /\
  (NoDup (url_object <$> loaded p) -> NoDup (url_object <$> loaded exit.2)).
Proof.
  simpl.
  assert (loaded (load url options p).2 = loaded p \/
          has url (loaded p) = false /\
          loaded (load url options p).2 = loaded p ++ [url]) as Hcases.
  { destruct (load_cases url options p)
      as [(-> & _) | [(w & ->) | (e & w & ->)]]; simpl; auto.
    destruct (has url (loaded p)); auto. }
  split_and!.
  - destruct Hcases as [->|[_ ->]]; auto.
  - intros Hhas. destruct Hcases as [->|[Hno _]]; [done | congruence].
  - intros u Hu. destruct Hcases as [->|[_ ->]]; [done|].
    by rewrite has_app, Hu.
  - intros Hnd. destruct Hcases as [->|[Hno ->]]; [done|].
    rewrite fmap_app. apply NoDup_app. split_and!; [done | |].
    + intros x Hx [->|[]%elem_of_nil]%elem_of_cons.
      apply has_elem in Hx. congruence.
    + simpl. apply NoDup_singleton.
Qed.

End WithPlatform.

End LoadSet.

(* ================================================================== *)
(** ** [getLocalFilename]: the name of a cached script *)
(* ================================================================== *)

Module FilenameSpec.
Import Eff Text TextFacts Load Cache.

Lemma join_empty_cons x rest :
  Text.join EmptyString (x :: rest) = x +:+ Text.join EmptyString rest.
Proof.
  destruct rest as [|y rest]; simpl.
  - induction x as [|c x IH]; [done|]. by rewrite app_cons, <- IH.
  - reflexivity.
Qed.

(** Every byte gives two digits, and they give the byte back. *)
Lemma hex_byte b :
  exists hi lo,
    padStart 2 "0" (toString16 b) = String hi (String lo EmptyString) /\
    byte_of_digits hi lo = Some b.
Proof. destruct b; do 2 eexists; split; reflexivity. Qed.

Lemma hex_cons b bytes :
  exists hi lo,
    hex (b :: bytes) = String hi (String lo (hex bytes)) /\
    byte_of_digits hi lo = Some b.
Proof.
  destruct (hex_byte b) as (hi & lo & Hb & Hd). exists hi, lo.
  split; [|done]. unfold hex. rewrite map_cons, join_empty_cons, Hb.
  by rewrite !app_cons, app_empty_l.
Qed.

Lemma hex_length bytes : String.length (hex bytes) = (2 * length bytes)%nat.
Proof.
  induction bytes as [|b bytes IH]; [done|].
  destruct (hex_cons b bytes) as (hi & lo & -> & _). simpl. rewrite IH. lia.
Qed.

Lemma hex_inj bytes bytes' : hex bytes = hex bytes' -> bytes = bytes'.
Proof.
  revert bytes'. induction bytes as [|b bytes IH]; intros [|b' bytes'].
  - done.
  - destruct (hex_cons b' bytes') as (hi & lo & -> & _). discriminate.
  - destruct (hex_cons b bytes) as (hi & lo & -> & _). discriminate.
  - destruct (hex_cons b bytes) as (hi & lo & -> & Hb).
    destruct (hex_cons b' bytes') as (hi' & lo' & -> & Hb').
    intros [= -> -> Hrest]. f_equal; [congruence | by apply IH].
Qed.

Lemma append_inj_length (a a' b b' : string) :
  String.length a = String.length a' -> a +:+ b = a' +:+ b' ->
  a = a' /\ b = b'.
Proof.
  revert a'. induction a as [|c a IH]; intros [|c' a']; try done.
  rewrite !app_cons. intros [= Hlen] [= -> Happ].
  destruct (IH a' Hlen Happ) as [-> ->]. done.
Qed.

Section WithStd.
Context `{Std}.

(** X15 ([getLocalFilename]).  The hexadecimal form of a list of bytes
    has two digits for every byte and determines the list: padding to two
    digits is what makes it so.  The name of a cached script is 64 digits,
    a dash and the base name of the path; two URLs get the same name only
    when the digests of their [href]s and their base names are the same,
    and they do when these are. *)
Theorem getLocalFilename_injective (url url' : URL) :
  (forall bytes, String.length (hex bytes) = (2 * length bytes)%nat) /\
  (forall bytes bytes', hex bytes = hex bytes' -> bytes = bytes') /\
  (exists h,
     String.length h = 64%nat /\
     getLocalFilename url = h +:+ "-" +:+ basename (pathname url)) /\
  (getLocalFilename url = getLocalFilename url' <->
   sha256 (encode (href url)) = sha256 (encode (href url')) /\
   basename (pathname url) = basename (pathname url')).
Proof.
  split_and!.
  - apply hex_length.
  - apply hex_inj.
  - eexists. split; [|reflexivity]. by rewrite hex_length, sha256_length.
  - unfold getLocalFilename. split.
    + intros Heq. apply append_inj_length in Heq as [Hh Hrest].
      * split; [by apply hex_inj|].
        rewrite !app_cons, !app_empty_l in Hrest. by injection Hrest.
      * by rewrite !hex_length, !sha256_length.
    + by intros [-> ->].
Qed.

End WithStd.

(** Without the padding two lists of bytes would share a form: 1, 0 and
    16 are "10" both. *)
Example unpadded_collision :
  Text.join EmptyString (map toString16 [Byte.x01; Byte.x00])
  = Text.join EmptyString (map toString16 [Byte.x10]) /\
  hex [Byte.x01; Byte.x00] = "0100" /\ hex [Byte.x10] = "10".
Proof. by vm_compute. Qed.

End FilenameSpec.

(* ================================================================== *)
(** ** [ensureLocalFile]: the cache of downloaded scripts *)
(* ================================================================== *)

Module CacheSpec.
Import Eff Load LoadSpec Cache.
Import HostSteps.

Section WithStd.
Context `{Std}.

(** [ensureLocalFile] for a URL that is no file URL, path by path. *)
Lemma ensureLocalFile_remote url w :
  protocol url <> "file:" ->
  ensureLocalFile url w =
  match cache_dir w with
  | Throw e => (Throw e, w)
  | Ok dir =>
      let w1 := with_dirs (union {[dir]}) w in
      let path := cached_path dir url in
      if bool_decide (is_Some (files w !! path) \/ path ∈ dirs w1)
      then (Ok path, w1)
      else
        let w2 := with_fetched (fun l => l ++ [href url]) w1 in
        match web w !! href url with
        | None => (Throw (Error "error sending request"), w2)
        | Some (status, body) =>
            if bool_decide (status <> 200)
            then (Throw (Error "Failed to fetch"), w2)
            else (Ok path, with_files (insert path body) w2)
        end
  end.
Proof.
  intros Hp. unfold ensureLocalFile.
  rewrite (bool_decide_false _ Hp). cbn [Load.getOrCreateCacheDir deno].
  unfold getOrCreateCacheDir, cached_path. rewrite !bind_run.
  destruct (cache_dir w) as [dir|e]; [|done].
  unfold mbind, eff_bind, mret, eff_ret, mkdir, modify, exists_path, gets,
    world_fetch, world_writeFile, throw. cbn.
  case_bool_decide; [done|].
  unfold world_fetch, mbind, eff_bind, mret, eff_ret, modify, gets, throw.
  cbn. destruct (web w !! href url) as [[status body]|]; [|done].
  by case_bool_decide.
Qed.

Lemma ensureLocalFile_file url w :
  protocol url = "file:" -> ensureLocalFile url w = (std_fromFileUrl url, w).
Proof.
  intros Hp. unfold ensureLocalFile. by rewrite (bool_decide_true _ Hp).
Qed.

(** X16 (a script is downloaded once).  For a URL that is no file URL,
    when the cache directory is known, nothing is at the path of the
    cached copy, and the server answers 200: [ensureLocalFile] makes the
    directory, fetches the URL once, writes the body to the path and
    answers the path.  A second call answers the same path and does
    nothing else: no request is made, no file written. *)
Theorem ensureLocalFile_downloads_once (url : URL) (w : world)
    (dir : string) (body : list Byte.byte) :
  let path := cached_path dir url in
  protocol url <> "file:" ->
  cache_dir w = Ok dir ->
  files w !! path = None -> path ∉ dirs w -> path <> dir ->
  web w !! href url = Some (200, body) ->
  let first := ensureLocalFile url w in
  first.1 = Ok path /\
  files first.2 = <[path := body]> (files w) /\
  fetched first.2 = fetched w ++ [href url] /\
  dir ∈ dirs first.2 /\
  ensureLocalFile url first.2 = (Ok path, first.2).
Proof.
  intros path Hp Hdir Hfile Hnodir Hne Hweb. simpl.
  rewrite (ensureLocalFile_remote url w Hp), Hdir. cbv zeta. fold path.
  rewrite bool_decide_false.
  2:{ intros [[? Hf]|Hd]; [congruence|]. simpl in Hd.
      by apply elem_of_union in Hd as [Hd%elem_of_singleton|Hd]. }
  rewrite Hweb, bool_decide_false by (intros Hs; by apply Hs).
  simpl. split_and!;
    [done | done | done | by apply elem_of_union_l, elem_of_singleton |].
  set (w1 := with_files _ _).
  rewrite (ensureLocalFile_remote url w1 Hp).
  assert (cache_dir w1 = Ok dir) as -> by done.
  cbv zeta. fold path. rewrite bool_decide_true.
  - f_equal. subst w1. destruct w. unfold with_dirs, with_files, with_fetched.
    simpl. f_equal. by rewrite (assoc_L (∪)), union_idemp_L.
  - left. subst w1. simpl. rewrite lookup_insert_eq. by eexists.
Qed.


(** X18 (the cache directory).  The cache directory is found through
    [HOME], and through [LOCALAPPDATA] on Windows.  When the variable is
    not set, or set to the empty string, [load] of a URL that is no file
    URL fails before anything is done: no directory is made, no request
    sent, and the set is what it was.  A file URL needs no such variable:
    its script is sourced from the path of the URL. *)
Theorem load_needs_cache_dir (url : URL) (options : LoadOptions)
    (p : process world) :
  let var := if on_windows (outside p) then "LOCALAPPDATA" else "HOME" in
  (env (outside p) !! var = None \/
   env (outside p) !! var = Some EmptyString) ->
  has url (loaded p) = false ->
  (protocol url <> "file:" ->
   exists msg, load url options p = (Throw (Error msg), p)) /\
  (protocol url = "file:" ->
   forall path, std_fromFileUrl url = Ok path ->
   load url options p
   = (Ok true,
      Process (with_scripts (fun l => l ++ [path]) (outside p))
        (loaded p ++ [url]))).
Proof.
  intros var Hvar Hhas. split.
  - intros Hp. rewrite load_runs by by left.
    rewrite (ensureLocalFile_remote url _ Hp). unfold cache_dir.
    subst var. destruct p as [w l]. simpl in *.
    unfold getCacheDirWindows, getCacheDirUnix.
    destruct (on_windows w); destruct Hvar as [-> | ->]; by eexists.
  - intros Hp path Hpath. rewrite load_runs by by left.
    rewrite (ensureLocalFile_file url _ Hp), Hpath. cbn.
    unfold add, set_outside. simpl. by rewrite Hhas.
Qed.

Lemma ensureLocalFile_scripts url w :
  scripts (ensureLocalFile url w).2 = scripts w.
Proof.
  destruct (decide (protocol url = "file:")) as [Hp|Hp].
  - by rewrite (ensureLocalFile_file url w Hp).
  - rewrite (ensureLocalFile_remote url w Hp).
    destruct (cache_dir w) as [dir|e]; [|done]. cbv zeta.
    case_bool_decide; [done|].
    destruct (web w !! href url) as [[status body]|]; [|done].
    by case_bool_decide.
Qed.

(** X19 ([load], what the answer tells).  [load] answers true exactly when
    it made the host source a script: then one path was sourced, after the
    ones sourced before; when it answers false, and when it fails, the host
    sourced nothing. *)
Theorem load_true_iff_sourced (url : URL) (options : LoadOptions)
    (p : process world) :
  let exit := load url options p in
  (exit.1 = Ok true <->
   exists path, scripts (outside exit.2) = scripts (outside p) ++ [path]) /\
  (exit.1 <> Ok true -> scripts (outside exit.2) = scripts (outside p)).
Proof.
  simpl.
  assert ((load url options p).1 = Ok true /\
          (exists path, scripts (outside (load url options p).2)
                        = scripts (outside p) ++ [path]) \/
          (load url options p).1 <> Ok true /\
          scripts (outside (load url options p).2) = scripts (outside p))
    as Hcases.
  { destruct (LoadSet.load_cases url options p)
      as [(-> & _) | [(w & Hrun) | (e & w & Hrun)]]; [by right | |].
    - left. rewrite Hrun. split; [done|].
      destruct (has url (loaded p) && not_forced options) eqn:Hskip.
      + apply andb_prop in Hskip as [Hhas Hforce].
        rewrite load_cached in Hrun by done. discriminate.
      + rewrite load_runs in Hrun.
        2:{ apply andb_false_iff in Hskip. tauto. }
        pose proof (ensureLocalFile_scripts url (outside p)) as Hs.
        destruct (ensureLocalFile url (outside p)) as [[path|e] w1];
          [|discriminate].
        simpl in Hs, Hrun. injection Hrun as <-. exists path. simpl.
        by rewrite Hs.
    - right. rewrite Hrun. split; [done|].
      destruct (has url (loaded p) && not_forced options) eqn:Hskip.
      + apply andb_prop in Hskip as [Hhas Hforce].
        rewrite load_cached in Hrun by done. discriminate.
      + rewrite load_runs in Hrun.
        2:{ apply andb_false_iff in Hskip. tauto. }
        pose proof (ensureLocalFile_scripts url (outside p)) as Hs.
        destruct (ensureLocalFile url (outside p)) as [[path|e'] w1];
          simpl in Hs, Hrun.
        * discriminate.
        * injection Hrun as _ <-. done. }
  split.
  - split.
    + by intros Hok; destruct Hcases as [[_ ?]|[? _]].
    + intros [path Hpath]. destruct Hcases as [[? _]|[_ Hsame]]; [done|].
      rewrite Hsame in Hpath. apply (f_equal length) in Hpath.
      rewrite length_app in Hpath. simpl in Hpath. lia.
  - intros Hne. by destruct Hcases as [[? _]|[_ ?]].
Qed.

End WithStd.

#[local] Existing Instance sample_std.

(** [ensureLocalFile_downloads_once] for the script the sample world
    serves. *)
Lemma ensureLocalFile_downloads_once_witness :
  let first := ensureLocalFile remote served in
  first.1 = Ok (cached_path "/home/me/.cache/denops_std/load" remote) /\
  fetched first.2 = ["https://example.com/foo.vim"] /\
  ensureLocalFile remote first.2 = first.
Proof.
  destruct (ensureLocalFile_downloads_once remote served
              "/home/me/.cache/denops_std/load" [Byte.x22])
    as (Hok & _ & Hfetched & _ & Hagain).
  - discriminate.
  - reflexivity.
  - reflexivity.
  - apply not_elem_of_empty.
  - by vm_compute.
  - reflexivity.
  - cbv zeta. split_and!; [exact Hok | exact Hfetched |].
    rewrite Hagain. destruct (ensureLocalFile remote served) as [r w].
    simpl in *. by rewrite Hok.
Defined.


(** [load_needs_cache_dir] in a world whose [HOME] is empty. *)
Lemma load_needs_cache_dir_witness :
  (exists msg,
     load remote plain (Process homeless []) = (Throw (Error msg), Process homeless [])) /\
  load foo1 plain (Process homeless [])
  = (Ok true,
     Process (with_scripts (fun l => l ++ ["/plugin/foo.vim"]) homeless) [foo1]).
Proof.
  destruct (load_needs_cache_dir remote plain (Process homeless []))
    as [Hremote _]; [by right | reflexivity |].
  destruct (load_needs_cache_dir foo1 plain (Process homeless []))
    as [_ Hfile]; [by right | reflexivity |].
  split.
  - apply Hremote. discriminate.
  - by apply Hfile.
Defined.

End CacheSpec.
